(** * pkg/k8s/portforward.go: port-forward sessions into a Kubernetes cluster

    A shallow embedding of [PortForward] and its constructors
    ([NewProxyMetricsForward], [NewPortForward], [newPortForward]), of
    [Run], [Stop], [URLFor] and of [getEphemeralPort].

    Go values are modelled as the code has them: [int] and [int32] as [Z]
    (the file does no arithmetic on them, and [int(port.ContainerPort)]
    widens, so nothing wraps), strings as [string], structs as records, [(T, error)] results as
    [result T], channels as cells of a heap indexed by reference, and the
    operating system, the API server and the port-forwarding library as an
    explicit [World] threaded through every effectful function. *)

From Stdlib Require Import ZArith String Ascii List Bool Lia.
From stdpp Require Import base gmap strings list.

Local Open Scope string_scope.
Local Open Scope Z_scope.
Local Open Scope list_scope.

(** ** Errors and results *)

(** The external collaborators an [error] value can originate from. *)
Inductive Origin : Type :=
  | PodList         (* k8sAPI.CoreV1().Pods(ns).List *)
  | NetListen       (* net.Listen *)
  | SpdyRoundTripper (* spdy.RoundTripperFor *)
  | PortforwardNew  (* portforward.New *)
  | ForwardLoop.    (* fw.ForwardPorts *)

(** Go's [error]: either built in this file with [fmt.Errorf] (an
    [errorString] carrying the formatted message) or handed back unchanged
    from a collaborator. *)
Inductive error : Type :=
  | errorString (msg : string)
  | foreign (from : Origin) (msg : string).

(** A Go [(T, error)] pair of which exactly one component is meaningful. *)
Inductive result (T : Type) : Type :=
  | Ok (v : T)
  | Err (e : error).
Arguments Ok {T} v.
Arguments Err {T} e.

Definition is_err {T} (r : result T) : bool :=
  match r with Ok _ => false | Err _ => true end.

(** ** fmt.Sprintf, for the verbs the file uses ([%d] and [%s]) *)

Inductive fmtArg : Type :=
  | ArgInt (z : Z)
  | ArgStr (s : string).

Definition digitChar (d : Z) : ascii :=
  ascii_of_nat (48 + Z.to_nat d).

(** The digit loop of [fmt]'s integer formatting: digits are produced from
    the least significant one and prepended to the buffer. *)
Fixpoint utoa (fuel : nat) (u : Z) (buf : string) : string :=
  match fuel with
  | O => buf
  | S fuel' =>
      if u <? 10 then String (digitChar u) buf
      else utoa fuel' (u / 10) (String (digitChar (u mod 10)) buf)
  end.

(** [%d] of an [int]: an optional minus sign and the decimal digits. *)
Definition fmt_d (z : Z) : string :=
  let u := Z.abs z in
  let digits := utoa (S (Z.to_nat (Z.log2 u))) u "" in
  if z <? 0 then String "-"%char digits else digits.

(** Operands of the wrong type, missing operands and unknown verbs are
    reported in the output, in the way of [fmt] ("%!d(BADARG)" stands for
    its "%!d(type=value)"); operands left over at the end are dropped where
    [fmt] would append "%!(EXTRA ...)". No call in this file reaches any of
    these cases. *)
Fixpoint Sprintf (format : string) (args : list fmtArg) : string :=
  match format with
  | EmptyString => EmptyString
  | String "%"%char EmptyString => "%!(NOVERB)"
  | String "%"%char (String verb rest) =>
      match verb, args with
      | "%"%char, _ => String "%"%char (Sprintf rest args)
      | "d"%char, ArgInt z :: args' => fmt_d z +:+ Sprintf rest args'
      | "s"%char, ArgStr s :: args' => s +:+ Sprintf rest args'
      | _, _ :: args' => "%!" +:+ String verb ("(BADARG)" +:+ Sprintf rest args')
      | _, [] => "%!" +:+ String verb ("(MISSING)" +:+ Sprintf rest [])
      end
  | String c rest => String c (Sprintf rest args)
  end.

(** [fmt.Errorf] without a [%w] verb. *)
Definition Errorf (format : string) (args : list fmtArg) : error :=
  errorString (Sprintf format args).

(** [strings.HasPrefix(s, prefix)]:
    [len(s) >= len(prefix) && s[:len(prefix)] == prefix]. *)
Definition HasPrefix (s prefix : string) : bool :=
  (String.length prefix <=? String.length s)%nat
  && String.eqb (substring 0 (String.length prefix) s) prefix.

(** ** The Kubernetes objects the file reads (k8s.io/api/core/v1) *)

Module corev1.

Definition PodPhase := string.
Definition PodRunning : PodPhase := "Running".

Record ContainerPort : Type := mkContainerPort {
  PortName : string;
  ContainerPortNumber : Z   (* ContainerPort int32 *)
}.

Record Container : Type := mkContainer {
  ContainerName : string;
  Ports : list ContainerPort
}.

Record Pod : Type := mkPod {
  Name : string;
  Namespace : string;
  Phase : PodPhase;           (* pod.Status.Phase *)
  Containers : list Container (* pod.Spec.Containers *)
}.

(** Go zero values, what [var container corev1.Container] holds. *)
Definition zeroContainerPort : ContainerPort := mkContainerPort "" 0.
Definition zeroContainer : Container := mkContainer "" [].

End corev1.
Import corev1.

(** ** The world outside the process *)

(** [net.Addr]: what [ln.Addr()] returns, a [*net.TCPAddr] or some other
    implementation of the interface. *)
Inductive Addr : Type :=
  | TCPAddr (Port : Z)
  | OtherAddr (text : string).

(** The [String()] method of an address. *)
Definition AddrString (a : Addr) : string :=
  match a with
  | TCPAddr port => "[::]:" +:+ fmt_d port
  | OtherAddr text => text
  end.

(** The operating system's answer to one [net.Listen("tcp", ":0")]. *)
Inductive ListenOutcome : Type :=
  | Bound (addr : Addr)
  | Refused (msg : string).

Record Listener : Type := mkListener {
  ln_id : nat;
  ln_addr : Addr
}.

(** A [chan struct{}]: its capacity and whether it has been closed. *)
Record Chan : Type := mkChan {
  ch_cap : nat;
  ch_closed : bool
}.

Inductive Writer : Type :=
  | Discard   (* ioutil.Discard *)
  | Stdout    (* os.Stdout *)
  | Stderr.   (* os.Stderr *)

Record Config : Type := mkConfig {   (* rest.Config *)
  Host : string
}.

(** A request URL: the client's base and the segments of the path. *)
Record URL : Type := mkURL {
  url_host : string;
  url_resource : string;
  url_namespace : string;
  url_name : string;
  url_subresource : string
}.

(** What the cluster and the operating system will answer; never written
    by the program. *)
Record Env : Type := mkEnv {
  os_listen : nat -> ListenOutcome;            (* n-th call of net.Listen *)
  round_tripper_for : Config -> option error;  (* spdy.RoundTripperFor *)
  forwarder_new : list string -> option error; (* portforward.New *)
  upgrade : URL -> option error;               (* the dial of the stream connection *)
  bind_local : string -> option error;         (* listening on a "local:remote" pair *)
  tunnel_end : option error;                   (* how an established tunnel ends *)
  loop_out : list string;                      (* what the loop prints *)
  loop_errOut : list string
}.

Record World : Type := mkWorld {
  env : Env;
  listen_calls : nat;         (* calls of net.Listen so far *)
  open_listeners : list nat;  (* listeners opened and not yet closed *)
  chans : gmap nat Chan;      (* the channels made so far *)
  next_chan : nat;
  stdout : list string;
  stderr : list string
}.

Definition set_listeners (calls : nat) (open : list nat) (w : World) : World :=
  mkWorld (env w) calls open (chans w) (next_chan w) (stdout w) (stderr w).

Definition set_chans (cs : gmap nat Chan) (next : nat) (w : World) : World :=
  mkWorld (env w) (listen_calls w) (open_listeners w) cs next (stdout w) (stderr w).

Definition set_streams (out err : list string) (w : World) : World :=
  mkWorld (env w) (listen_calls w) (open_listeners w) (chans w) (next_chan w) out err.

(** ** Effectful code: a state monad over [World] in which a goroutine
       either returns or panics *)

Inductive outcome (A : Type) : Type :=
  | Returned (a : A) (w : World)
  | Panicked (msg : string) (w : World).
Arguments Returned {A} a w.
Arguments Panicked {A} msg w.

Definition M (A : Type) : Type := World -> outcome A.

Definition ret {A} (a : A) : M A := fun w => Returned a w.

Definition bind {A B} (f : A -> M B) (m : M A) : M B :=
  fun w =>
    match m w with
    | Returned a w' => f a w'
    | Panicked msg w' => Panicked msg w'
    end.

(** stdpp's monad notation: [x ← m; k]. *)
#[global] Instance M_ret : MRet M := @ret.
#[global] Instance M_bind : MBind M := @bind.

Definition panic {A} (msg : string) : M A := fun w => Panicked msg w.

(** [defer cleanup] placed before [body]: the cleanup runs when the
    function leaves, by return or by panic. *)
Definition defer {A} (cleanup : World -> World) (body : M A) : M A :=
  fun w =>
    match body w with
    | Returned a w' => Returned a (cleanup w')
    | Panicked msg w' => Panicked msg (cleanup w')
    end.

Definition final_world {A} (o : outcome A) : World :=
  match o with
  | Returned _ w => w
  | Panicked _ w => w
  end.

(** ** Channels *)

(** [make(chan struct{}, cap)] *)
Definition make_chan (cap : nat) : M nat :=
  fun w =>
    let r := next_chan w in
    Returned r (set_chans (<[r := mkChan cap false]> (chans w)) (S r) w).

(** [close(c)]: closing a closed (or nil) channel panics. *)
Definition close (c : nat) : M unit :=
  fun w =>
    match chans w !! c with
    | None => Panicked "close of nil channel" w
    | Some ch =>
        if ch_closed ch then Panicked "close of closed channel" w
        else Returned tt (set_chans (<[c := mkChan (ch_cap ch) true]> (chans w)) (next_chan w) w)
    end.

(** Whether channel [c] has been closed in [w]: a receive from it no longer
    blocks. *)
Definition fired (c : nat) (w : World) : bool :=
  match chans w !! c with
  | Some ch => ch_closed ch
  | None => false
  end.

(** ** net.Listen and Listener.Close *)

Definition net_Listen (network address : string) : M (result Listener) :=
  fun w =>
    let n := listen_calls w in
    match os_listen (env w) n with
    | Refused msg =>
        Returned (Err (foreign NetListen msg)) (set_listeners (S n) (open_listeners w) w)
    | Bound addr =>
        Returned (Ok (mkListener n addr)) (set_listeners (S n) (n :: open_listeners w) w)
    end.

Definition ln_Close (ln : Listener) (w : World) : World :=
  set_listeners (listen_calls w)
    (filter (fun i => i <> ln_id ln) (open_listeners w)) w.

(** ** getEphemeralPort *)

Definition getEphemeralPort : M (result Z) :=
  r ← net_Listen "tcp" ":0";
  match r with
  | Err err => ret (Err err)
  | Ok ln =>
      defer (ln_Close ln)
        match ln_addr ln with
        | TCPAddr port => ret (Ok port)
        | other => ret (Err (Errorf "invalid listen address: %s" [ArgStr (AddrString other)]))
        end
  end.

(** ** The API client and the session *)

(** [*KubernetesAPI]: its [Config] and the answer of
    [CoreV1().Pods(namespace).List(ListOptions{TimeoutSeconds: t})]. *)
Record KubernetesAPI : Type := mkKubernetesAPI {
  APIConfig : Config;
  PodsList : string -> Z -> result (list Pod)
}.

Record PortForward : Type := mkPortForward {
  method : string;
  url : URL;
  localPort : Z;
  remotePort : Z;
  emitLogs : bool;
  stopCh : nat;    (* reference into the channel heap *)
  readyCh : nat;
  config : Config
}.

(** ** The request builder (k8s.io/client-go/rest)

    [RESTClient().Post().Resource(..).Namespace(..).Name(..).SubResource(..)]
    builds a request step by step. A step that is given a bad segment
    records an error in the request and sets nothing, and every later step
    of a request with an error does nothing: the request's [URL()] is then
    built from the segments set before. *)

(** [strings.Contains] *)
Definition Contains (s substr : string) : bool :=
  match index 0 substr s with
  | Some _ => true
  | None => false
  end.

(** [strings.ToLower], on the letters A to Z. *)
Definition lowerChar (c : ascii) : ascii :=
  let n := nat_of_ascii c in
  if ((65 <=? n) && (n <=? 90))%nat then ascii_of_nat (n + 32) else c.

Fixpoint ToLower (s : string) : string :=
  match s with
  | EmptyString => EmptyString
  | String c rest => String (lowerChar c) (ToLower rest)
  end.

Definition NameMayNotBe : list string := ["."; ".."].
Definition NameMayNotContain : list string := ["/"; "%"].

(** [IsValidPathSegmentName]: the reasons why [name] cannot be a path
    segment, none if it can. *)
Definition IsValidPathSegmentName (name : string) : list string :=
  match List.find (String.eqb name) NameMayNotBe with
  | Some illegalName => [Sprintf "may not be '%s'" [ArgStr illegalName]]
  | None =>
      List.map (fun illegalContent => Sprintf "may not contain '%s'" [ArgStr illegalContent])
        (List.filter (Contains name) NameMayNotContain)
  end.

(** [*rest.Request], with the fields these steps read and write. The text
    of the recorded error is kept short: nothing in this file reads it. *)
Record Request : Type := mkRequest {
  r_verb : string;
  r_host : string;          (* base URL and API path of the client *)
  r_resource : string;
  r_namespaceSet : bool;
  r_namespace : string;
  r_resourceName : string;
  r_subresource : string;
  r_err : option string
}.

Definition with_err (msg : string) (r : Request) : Request :=
  mkRequest (r_verb r) (r_host r) (r_resource r) (r_namespaceSet r) (r_namespace r)
    (r_resourceName r) (r_subresource r) (Some msg).

(** [c.Post()] *)
Definition Post (host : string) : Request :=
  mkRequest "POST" host "" false "" "" "" None.

Definition Resource (resource : string) (r : Request) : Request :=
  match r_err r with
  | Some _ => r
  | None =>
      if negb (String.length (r_resource r) =? 0)%nat then with_err "resource already set" r
      else
        match IsValidPathSegmentName resource with
        | _ :: _ => with_err "invalid resource" r
        | [] =>
            mkRequest (r_verb r) (r_host r) resource (r_namespaceSet r) (r_namespace r)
              (r_resourceName r) (r_subresource r) None
        end
  end.

Definition Namespace_ (namespace : string) (r : Request) : Request :=
  match r_err r with
  | Some _ => r
  | None =>
      if r_namespaceSet r then with_err "namespace already set" r
      else
        match IsValidPathSegmentName namespace with
        | _ :: _ => with_err "invalid namespace" r
        | [] =>
            mkRequest (r_verb r) (r_host r) (r_resource r) true namespace
              (r_resourceName r) (r_subresource r) None
        end
  end.

Definition Name_ (resourceName : string) (r : Request) : Request :=
  match r_err r with
  | Some _ => r
  | None =>
      if (String.length resourceName =? 0)%nat then
        with_err "resource name may not be empty" r
      else if negb (String.length (r_resourceName r) =? 0)%nat then
        with_err "resource name already set" r
      else
        match IsValidPathSegmentName resourceName with
        | _ :: _ => with_err "invalid resource name" r
        | [] =>
            mkRequest (r_verb r) (r_host r) (r_resource r) (r_namespaceSet r)
              (r_namespace r) resourceName (r_subresource r) None
        end
  end.

(** [SubResource] with the one segment it is given here. *)
Definition SubResource (subresource : string) (r : Request) : Request :=
  match r_err r with
  | Some _ => r
  | None =>
      if negb (String.length (r_subresource r) =? 0)%nat then
        with_err "subresource already set" r
      else
        match IsValidPathSegmentName subresource with
        | _ :: _ => with_err "invalid subresource" r
        | [] =>
            mkRequest (r_verb r) (r_host r) (r_resource r) (r_namespaceSet r)
              (r_namespace r) (r_resourceName r) subresource None
        end
  end.

(** [req.URL()]: the path is joined from "namespaces" and the namespace
    when one is set and not empty, the resource in lower case, and the name
    and the subresource. A field of the result that is empty stands for a
    segment the path does not have. *)
Definition Request_URL (r : Request) : URL :=
  mkURL (r_host r)
    (ToLower (r_resource r))
    (if r_namespaceSet r && negb (String.length (r_namespace r) =? 0)%nat
     then r_namespace r else "")
    (r_resourceName r)
    (r_subresource r).

(** The path of a URL below the client's base, segment by segment. *)
Definition URLPath (u : URL) : string :=
  (if (String.length (url_namespace u) =? 0)%nat then ""
   else "/namespaces/" +:+ url_namespace u)
  +:+ (if (String.length (url_resource u) =? 0)%nat then "" else "/" +:+ url_resource u)
  +:+ (if (String.length (url_name u) =? 0)%nat then "" else "/" +:+ url_name u)
  +:+ (if (String.length (url_subresource u) =? 0)%nat then ""
       else "/" +:+ url_subresource u).

Definition newPortForward (k8sAPI : KubernetesAPI) (namespace podName : string)
    (localPort remotePort : Z) (emitLogs : bool) : M (result PortForward) :=
  let req :=
    SubResource "portforward"
      (Name_ podName
         (Namespace_ namespace
            (Resource "pods" (Post (Host (APIConfig k8sAPI)))))) in
  r ← (if localPort =? 0 then getEphemeralPort else ret (Ok localPort));
  match r with
  | Err err => ret (Err err)
  | Ok localPort =>
      stop ← make_chan 1;
      ready ← make_chan 0;
      ret (Ok (mkPortForward "POST" (Request_URL req) localPort remotePort emitLogs
                 stop ready (APIConfig k8sAPI)))
  end.

(** The loop of [NewPortForward] over [podList.Items]; [podName] is the
    value the variable holds when the loop is entered. *)
Fixpoint selectPodName (items : list Pod) (deployName podName : string) : string :=
  match items with
  | [] => podName
  | pod :: rest =>
      if String.eqb (Phase pod) PodRunning then
        if HasPrefix (Name pod) deployName then Name pod (* break *)
        else selectPodName rest deployName podName
      else selectPodName rest deployName podName
  end.

Definition NewPortForward (k8sAPI : KubernetesAPI) (namespace deployName : string)
    (localPort remotePort : Z) (emitLogs : bool) : M (result PortForward) :=
  let timeoutSeconds := 30 in
  match PodsList k8sAPI namespace timeoutSeconds with
  | Err err => ret (Err err)
  | Ok items =>
      let podName := selectPodName items deployName "" in
      if String.eqb podName "" then
        ret (Err (Errorf "no running pods found for %s" [ArgStr deployName]))
      else newPortForward k8sAPI namespace podName localPort remotePort emitLogs
  end.

Section ProxyMetrics.

(** The two label constants of the package, declared outside this file. *)
Variable ProxyContainerName : string.
Variable ProxyAdminPortName : string.

(** [for _, c := range pod.Spec.Containers { if c.Name == ... { container = c; break } }] *)
Fixpoint findContainer (cs : list Container) (container : Container) : Container :=
  match cs with
  | [] => container
  | c :: rest =>
      if String.eqb (ContainerName c) ProxyContainerName then c
      else findContainer rest container
  end.

(** [for _, p := range container.Ports { if p.Name == ... { port = p; break } }] *)
Fixpoint findPort (ps : list ContainerPort) (port : ContainerPort) : ContainerPort :=
  match ps with
  | [] => port
  | p :: rest =>
      if String.eqb (PortName p) ProxyAdminPortName then p
      else findPort rest port
  end.

Definition NewProxyMetricsForward (k8sAPI : KubernetesAPI) (pod : Pod)
    (emitLogs : bool) : M (result PortForward) :=
  if negb (String.eqb (Phase pod) PodRunning) then
    ret (Err (Errorf "pod not running: %s" [ArgStr (Name pod)]))
  else
    let container := findContainer (Containers pod) zeroContainer in
    if negb (String.eqb (ContainerName container) ProxyContainerName) then
      ret (Err (Errorf "no %s container found for pod %s"
                  [ArgStr ProxyContainerName; ArgStr (Name pod)]))
    else
      let port := findPort (Ports container) zeroContainerPort in
      if negb (String.eqb (PortName port) ProxyAdminPortName) then
        ret (Err (Errorf "no %s port found for container %s/%s"
                    [ArgStr ProxyAdminPortName; ArgStr (Name pod);
                     ArgStr (ContainerName container)]))
      else
        newPortForward k8sAPI (Namespace pod) (Name pod) 0
          (ContainerPortNumber port) emitLogs.

(** The pod has no container with the sidecar's name. *)
Definition lacks_container (pod : Pod) : Prop :=
  Forall (fun c => ContainerName c <> ProxyContainerName) (Containers pod).

(** The pod's sidecar container, the first one with that name, has no port
    with the admin port's name. *)
Definition lacks_port (pod : Pod) : Prop :=
  exists before c after,
    Containers pod = before ++ c :: after
    /\ Forall (fun c' => ContainerName c' <> ProxyContainerName) before
    /\ ContainerName c = ProxyContainerName
    /\ Forall (fun p => PortName p <> ProxyAdminPortName) (Ports c).

End ProxyMetrics.

(** ** The port-forwarding library (k8s.io/client-go) *)

Record Dialer : Type := mkDialer {   (* spdy.NewDialer(upgrader, client, method, url) *)
  d_config : Config;   (* the configuration behind upgrader and transport *)
  d_method : string;
  d_url : URL
}.

Record PortForwarder : Type := mkPortForwarder {   (* portforward.New(...) *)
  fw_dialer : Dialer;
  fw_ports : list string;
  fw_stopChan : nat;
  fw_Ready : nat;
  fw_out : Writer;
  fw_errOut : Writer
}.

Definition spdy_RoundTripperFor (c : Config) : M (result Config) :=
  fun w =>
    match round_tripper_for (env w) c with
    | Some err => Returned (Err err) w
    | None => Returned (Ok c) w
    end.

Definition portforward_New (dialer : Dialer) (ports : list string)
    (stopChan readyChan : nat) (out errOut : Writer) : M (result PortForwarder) :=
  fun w =>
    match forwarder_new (env w) ports with
    | Some err => Returned (Err err) w
    | None => Returned (Ok (mkPortForwarder dialer ports stopChan readyChan out errOut)) w
    end.

Definition get_env : M Env := fun w => Returned (env w) w.

(** Writing [lines] to a writer. *)
Definition write_to (wr : Writer) (lines : list string) : M unit :=
  fun w =>
    match wr with
    | Discard => Returned tt w
    | Stdout => Returned tt (set_streams (stdout w ++ lines) (stderr w) w)
    | Stderr => Returned tt (set_streams (stdout w) (stderr w ++ lines) w)
    end.

(** Binding the local listeners of the requested port pairs: a failure
    when none of them could be bound. *)
Definition bind_all (e : Env) (ports : list string) : option error :=
  match filter (fun p => bind_local e p = None) ports with
  | [] => Some (foreign ForwardLoop "unable to listen on any of the requested ports")
  | _ :: _ => None
  end.

(** Modelled from the spec: the forwarder loop [fw.ForwardPorts()] belongs
    to the port-forwarding library, which is not part of this repository.
    Following the specification of [Run] and of the Forwarder Loop: the
    transport upgrade is negotiated first and its failure returns at once
    without signalling readiness; then the local listener is bound, and a
    bind failure returns without signalling readiness; readiness fires once
    both succeeded; the loop then runs until it is stopped, the remote side
    closes or a fatal error occurs, writing its output to the two writers
    it was given. *)
Definition ForwardPorts (fw : PortForwarder) : M (option error) :=
  e ← get_env;
  match upgrade e (d_url (fw_dialer fw)) with
  | Some err => ret (Some err)
  | None =>
      match bind_all e (fw_ports fw) with
      | Some err => ret (Some err)
      | None =>
          _ ← close (fw_Ready fw);
          _ ← write_to (fw_out fw) (loop_out e);
          _ ← write_to (fw_errOut fw) (loop_errOut e);
          ret (tunnel_end e)
      end
  end.

(** ** Methods of the session *)

(** [Run], with the three calls it makes into the library as parameters:
    [spdy.RoundTripperFor], [portforward.New] and [fw.ForwardPorts]. *)
Definition RunWith
    (RoundTripperFor : Config -> M (result Config))
    (New : Dialer -> list string -> nat -> nat -> Writer -> Writer
           -> M (result PortForwarder))
    (Forward : PortForwarder -> M (option error))
    (pf : PortForward) : M (option error) :=
  r ← RoundTripperFor (config pf);
  match r with
  | Err err => ret (Some err)
  | Ok transport =>
      let out := if emitLogs pf then Stdout else Discard in
      let errOut := if emitLogs pf then Stderr else Discard in
      let ports := [Sprintf "%d:%d" [ArgInt (localPort pf); ArgInt (remotePort pf)]] in
      let dialer := mkDialer transport (method pf) (url pf) in
      r' ← New dialer ports (stopCh pf) (readyCh pf) out errOut;
      match r' with
      | Err err => ret (Some err)
      | Ok fw => Forward fw
      end
  end.

Definition Run (pf : PortForward) : M (option error) :=
  RunWith spdy_RoundTripperFor portforward_New ForwardPorts pf.

Definition Ready (pf : PortForward) : nat := readyCh pf.

Definition Stop (pf : PortForward) : M unit := close (stopCh pf).

Definition URLFor (pf : PortForward) (path : string) : string :=
  Sprintf "http://127.0.0.1:%d%s" [ArgInt (localPort pf); ArgStr path].

(** ** Specification-side vocabulary *)

(** A pod the selection of [NewPortForward] is looking for: in phase
    [Running] and with a name that starts with [deployName]. *)
Definition matches (deployName : string) (pod : Pod) : Prop :=
  Phase pod = PodRunning /\ exists rest, Name pod = deployName +:+ rest.

(** The session [pf] with its [emitLogs] flag set to [b]. *)
Definition with_emitLogs (b : bool) (pf : PortForward) : PortForward :=
  mkPortForward (method pf) (url pf) (localPort pf) (remotePort pf) b
    (stopCh pf) (readyCh pf) (config pf).

(** The forwarder [Run] hands to the library once both setup steps
    succeeded. *)
Definition forwarder_of (pf : PortForward) : PortForwarder :=
  mkPortForwarder
    (mkDialer (config pf) (method pf) (url pf))
    [Sprintf "%d:%d" [ArgInt (localPort pf); ArgInt (remotePort pf)]]
    (stopCh pf) (readyCh pf)
    (if emitLogs pf then Stdout else Discard)
    (if emitLogs pf then Stderr else Discard).


(** Reading a decimal numeral back. *)
Definition digitValue (c : ascii) : option Z :=
  let n := Z.of_nat (nat_of_ascii c) in
  if (48 <=? n) && (n <=? 57) then Some (n - 48) else None.

Fixpoint parseDigits (s : string) (acc : Z) : option Z :=
  match s with
  | EmptyString => Some acc
  | String c rest =>
      match digitValue c with
      | Some d => parseDigits rest (10 * acc + d)
      | None => None
      end
  end.

Definition atoi (s : string) : option Z :=
  match s with
  | EmptyString => None
  | String "-"%char (String c rest) => option_map Z.opp (parseDigits (String c rest) 0)
  | String c rest => parseDigits (String c rest) 0
  end.

(** The URL of the request [newPortForward] builds. *)
Definition session_url (k8sAPI : KubernetesAPI) (namespace podName : string) : URL :=
  Request_URL
    (SubResource "portforward"
       (Name_ podName
          (Namespace_ namespace
             (Resource "pods" (Post (Host (APIConfig k8sAPI))))))).

(** The session [newPortForward] returns when it runs in [w] with the local
    port already decided, and the world it leaves. *)
Definition session_in (k8sAPI : KubernetesAPI) (namespace podName : string)
    (localPort remotePort : Z) (emitLogs : bool) (w : World) : PortForward :=
  mkPortForward "POST" (session_url k8sAPI namespace podName)
    localPort remotePort emitLogs (next_chan w) (S (next_chan w)) (APIConfig k8sAPI).

Definition with_session_chans (w : World) : World :=
  set_chans
    (<[S (next_chan w) := mkChan 0 false]> (<[next_chan w := mkChan 1 false]> (chans w)))
    (S (S (next_chan w))) w.


(** ** A concrete cluster, used to run the model *)

Definition demo_env : Env :=
  mkEnv (fun n => Bound (TCPAddr (40000 + Z.of_nat n)))
    (fun _ => None) (fun _ => None) (fun _ => None) (fun _ => None)
    None ["Forwarding from 127.0.0.1"] ["Handling connection"].

Definition demo_world : World := mkWorld demo_env 0 [] ∅ 0 [] [].

Definition demo_pods : list Pod :=
  [ mkPod "web-1" "prod" "Pending" [];
    mkPod "api-1" "prod" "Running" [];
    mkPod "web-2" "prod" "Running" [];
    mkPod "web-3" "prod" "Running" [] ].

Definition demo_api : KubernetesAPI :=
  mkKubernetesAPI (mkConfig "https://cluster.example") (fun _ _ => Ok demo_pods).

Definition sidecar : Container :=
  mkContainer "linkerd-proxy"
    [mkContainerPort "linkerd-proxy" 4143; mkContainerPort "linkerd-admin" 4191].

Definition app_container : Container :=
  mkContainer "web" [mkContainerPort "http" 8080].

Definition meshed_pod (phase : PodPhase) : Pod :=
  mkPod "web-7f8" "prod" phase [app_container; sidecar].

Definition unmeshed_pod (phase : PodPhase) : Pod :=
  mkPod "web-7f8" "prod" phase [app_container].

Definition no_admin_pod : Pod :=
  mkPod "web-7f8" "prod" "Running"
    [app_container; mkContainer "linkerd-proxy" [mkContainerPort "linkerd-proxy" 4143]].

Definition demo_session : PortForward :=
  session_in demo_api "prod" "web-2" 7777 8080 false demo_world.

Definition demo_session_world : World := with_session_chans demo_world.

(** A cluster that rejects the credentials when the round tripper is built. *)
Definition rejecting_env : Env :=
  mkEnv (os_listen demo_env)
    (fun _ => Some (foreign SpdyRoundTripper "unable to load client certificate"))
    (forwarder_new demo_env) (upgrade demo_env) (bind_local demo_env)
    (tunnel_end demo_env) (loop_out demo_env) (loop_errOut demo_env).

Definition rejecting_world : World :=
  mkWorld rejecting_env 0 [] (chans demo_session_world) 2 [] [].

(** The characters [%d] can print: the ten digits and the minus sign. *)
Definition numeralChar (c : ascii) : bool :=
  match digitValue c with
  | Some _ => true
  | None => Ascii.eqb c "-"
  end.

Fixpoint numeral (s : string) : bool :=
  match s with
  | EmptyString => true
  | String c rest => numeralChar c && numeral rest
  end.

(** ** Strings *)

Lemma append_nil_l (t : string) : "" +:+ t = t.
Proof. reflexivity. Qed.

Lemma append_cons (c : ascii) (s t : string) :
  String c s +:+ t = String c (s +:+ t).
Proof. reflexivity. Qed.

Lemma append_empty_r (s : string) : s +:+ "" = s.
Proof.
  induction s as [|c s IH]; [reflexivity|].
  now rewrite append_cons, IH.
Qed.

Lemma append_assoc (a b c : string) : (a +:+ b) +:+ c = a +:+ (b +:+ c).
Proof.
  induction a as [|x a IH]; [reflexivity|].
  now rewrite !append_cons, IH.
Qed.

Lemma length_append (a b : string) :
  String.length (a +:+ b) = (String.length a + String.length b)%nat.
Proof.
  induction a as [|x a IH]; [reflexivity|].
  rewrite append_cons. simpl. now rewrite IH.
Qed.

Lemma substring_append_l (p t : string) :
  substring 0 (String.length p) (p +:+ t) = p.
Proof.
  induction p as [|c p IH].
  - rewrite append_nil_l. destruct t; reflexivity.
  - rewrite append_cons. simpl. now rewrite IH.
Qed.

Lemma substring_prefix_split (p s : string) :
  (String.length p <= String.length s)%nat ->
  substring 0 (String.length p) s = p ->
  exists t, s = p +:+ t.
Proof.
  revert s. induction p as [|c p IH]; intros s Hlen Hsub.
  - exists s. reflexivity.
  - destruct s as [|d s]; simpl in *; [lia|].
    injection Hsub as -> Hsub.
    destruct (IH s) as [t ->]; [lia | assumption |].
    exists t. reflexivity.
Qed.

(** [strings.HasPrefix] decides "starts with". *)
Lemma HasPrefix_spec (s prefix : string) :
  HasPrefix s prefix = true <-> exists rest, s = prefix +:+ rest.
Proof.
  unfold HasPrefix. rewrite andb_true_iff, Nat.leb_le, String.eqb_eq. split.
  - intros [Hlen Hsub]. now apply substring_prefix_split.
  - intros [t ->]. split.
    + rewrite length_append. lia.
    + apply substring_append_l.
Qed.

Lemma HasPrefix_false (s prefix : string) :
  HasPrefix s prefix = false <-> ~ exists rest, s = prefix +:+ rest.
Proof.
  rewrite <- HasPrefix_spec. destruct (HasPrefix s prefix); split; intros; congruence.
Qed.

(** The messages of the constructors, with the verbs filled in. *)
Lemma Sprintf_no_running_pods (deployName : string) :
  Sprintf "no running pods found for %s" [ArgStr deployName]
  = "no running pods found for " +:+ deployName.
Proof. simpl. rewrite append_empty_r. reflexivity. Qed.

Lemma Sprintf_pod_not_running (name : string) :
  Sprintf "pod not running: %s" [ArgStr name] = "pod not running: " +:+ name.
Proof. simpl. rewrite append_empty_r. reflexivity. Qed.

Lemma Sprintf_no_container (cname pname : string) :
  Sprintf "no %s container found for pod %s" [ArgStr cname; ArgStr pname]
  = "no " +:+ cname +:+ " container found for pod " +:+ pname.
Proof. simpl. rewrite append_empty_r. reflexivity. Qed.

Lemma Sprintf_no_port (port pname cname : string) :
  Sprintf "no %s port found for container %s/%s"
    [ArgStr port; ArgStr pname; ArgStr cname]
  = "no " +:+ port +:+ " port found for container " +:+ pname +:+ "/" +:+ cname.
Proof. simpl. rewrite append_empty_r. reflexivity. Qed.

Lemma Sprintf_invalid_listen (text : string) :
  Sprintf "invalid listen address: %s" [ArgStr text]
  = "invalid listen address: " +:+ text.
Proof. simpl. rewrite append_empty_r. reflexivity. Qed.

(** ** The URL of a session *)

Lemma length_zero (s : string) : (String.length s =? 0)%nat = true <-> s = "".
Proof.
  destruct s; simpl; split; intros H; try reflexivity; discriminate.
Qed.

Lemma session_url_valid (k8sAPI : KubernetesAPI) (namespace podName : string) :
  IsValidPathSegmentName namespace = [] ->
  podName <> "" ->
  IsValidPathSegmentName podName = [] ->
  session_url k8sAPI namespace podName
  = mkURL (Host (APIConfig k8sAPI)) "pods" namespace podName "portforward".
Proof.
  intros Hns Hne Hname. unfold session_url.
  change (Resource "pods" (Post (Host (APIConfig k8sAPI))))
    with (mkRequest "POST" (Host (APIConfig k8sAPI)) "pods" false "" "" "" None).
  unfold Namespace_. cbn [r_err r_namespaceSet]. rewrite Hns.
  unfold Name_. cbn [r_err r_resourceName String.length Nat.eqb negb].
  destruct (String.length podName =? 0)%nat eqn:Hlen;
    [apply length_zero in Hlen; contradiction|].
  rewrite Hname.
  unfold SubResource. cbn [r_err r_subresource String.length Nat.eqb negb].
  change (IsValidPathSegmentName "portforward") with (@nil string).
  unfold Request_URL.
  cbn [r_host r_resource r_namespaceSet r_namespace r_resourceName r_subresource
       r_verb andb].
  change (ToLower "pods") with "pods".
  destruct namespace; reflexivity.
Qed.

Lemma session_url_bad_name (k8sAPI : KubernetesAPI) (namespace podName : string) :
  IsValidPathSegmentName namespace = [] ->
  podName = "" \/ IsValidPathSegmentName podName <> [] ->
  session_url k8sAPI namespace podName
  = mkURL (Host (APIConfig k8sAPI)) "pods" namespace "" "".
Proof.
  intros Hns Hbad. unfold session_url.
  change (Resource "pods" (Post (Host (APIConfig k8sAPI))))
    with (mkRequest "POST" (Host (APIConfig k8sAPI)) "pods" false "" "" "" None).
  unfold Namespace_. cbn [r_err r_namespaceSet]. rewrite Hns.
  unfold Name_. cbn [r_err r_resourceName String.length Nat.eqb negb].
  destruct (String.length podName =? 0)%nat eqn:Hlen.
  - unfold SubResource, Request_URL, with_err.
    cbn [r_err r_host r_resource r_namespaceSet r_namespace r_resourceName
         r_subresource andb].
    change (ToLower "pods") with "pods". destruct namespace; reflexivity.
  - destruct Hbad as [-> | Hbad]; [discriminate Hlen|].
    destruct (IsValidPathSegmentName podName); [congruence|].
    unfold SubResource, Request_URL, with_err.
    cbn [r_err r_host r_resource r_namespaceSet r_namespace r_resourceName
         r_subresource andb].
    change (ToLower "pods") with "pods". destruct namespace; reflexivity.
Qed.

Lemma session_url_bad_namespace (k8sAPI : KubernetesAPI) (namespace podName : string) :
  IsValidPathSegmentName namespace <> [] ->
  session_url k8sAPI namespace podName
  = mkURL (Host (APIConfig k8sAPI)) "pods" "" "" "".
Proof.
  intros Hns. unfold session_url.
  change (Resource "pods" (Post (Host (APIConfig k8sAPI))))
    with (mkRequest "POST" (Host (APIConfig k8sAPI)) "pods" false "" "" "" None).
  unfold Namespace_. cbn [r_err r_namespaceSet].
  destruct (IsValidPathSegmentName namespace); [congruence|].
  reflexivity.
Qed.

Example session_url_paths :
  URLPath (session_url demo_api "prod" "web-2") = "/namespaces/prod/pods/web-2/portforward"
  /\ URLPath (session_url demo_api "prod" "web/1") = "/namespaces/prod/pods"
  /\ URLPath (session_url demo_api "prod" "") = "/namespaces/prod/pods"
  /\ URLPath (session_url demo_api "prod" "..") = "/namespaces/prod/pods"
  /\ URLPath (session_url demo_api "" "web-2") = "/pods/web-2/portforward"
  /\ URLPath (session_url demo_api "a%b" "web-2") = "/pods".
Proof. repeat split. Qed.

(** ** Selection of the pod in [NewPortForward] *)

Lemma matches_dec_true (deployName : string) (pod : Pod) :
  matches deployName pod ->
  String.eqb (Phase pod) PodRunning = true /\ HasPrefix (Name pod) deployName = true.
Proof.
  intros [Hphase Hname]. split.
  - now apply String.eqb_eq.
  - now apply HasPrefix_spec.
Qed.

Lemma matches_dec_false (deployName : string) (pod : Pod) :
  ~ matches deployName pod ->
  String.eqb (Phase pod) PodRunning = false \/ HasPrefix (Name pod) deployName = false.
Proof.
  intros Hno.
  destruct (String.eqb (Phase pod) PodRunning) eqn:Hphase; [|now left].
  destruct (HasPrefix (Name pod) deployName) eqn:Hname; [|now right].
  exfalso. apply Hno. split.
  - now apply String.eqb_eq.
  - now apply HasPrefix_spec.
Qed.

(** The loop skips every pod that does not match. *)
Lemma selectPodName_skip (before rest : list Pod) (deployName podName : string) :
  Forall (fun p => ~ matches deployName p) before ->
  selectPodName (before ++ rest) deployName podName
  = selectPodName rest deployName podName.
Proof.
  induction 1 as [|p before Hp _ IH]; [reflexivity|].
  simpl. destruct (matches_dec_false _ _ Hp) as [-> | Hname].
  - exact IH.
  - rewrite Hname. destruct (String.eqb (Phase p) PodRunning); exact IH.
Qed.

(** It stops at the first pod that matches. *)
Lemma selectPodName_first (before after : list Pod) (pod : Pod)
    (deployName podName : string) :
  Forall (fun p => ~ matches deployName p) before ->
  matches deployName pod ->
  selectPodName (before ++ pod :: after) deployName podName = Name pod.
Proof.
  intros Hbefore Hpod. rewrite selectPodName_skip by assumption.
  simpl. destruct (matches_dec_true _ _ Hpod) as [-> ->]. reflexivity.
Qed.

(** With no matching pod the variable keeps its initial value. *)
Lemma selectPodName_none (items : list Pod) (deployName podName : string) :
  Forall (fun p => ~ matches deployName p) items ->
  selectPodName items deployName podName = podName.
Proof.
  intros Hnone. rewrite <- (app_nil_r items).
  now rewrite selectPodName_skip.
Qed.

(** C1, as amended. For every pod list the query returned:
    - if the first pod in list order that is [Running] and whose name starts
      with [deployName] has a non-empty name, [NewPortForward] builds the
      session for exactly that pod (no sorting, first match wins);
    - if no [Running] pod matches the prefix, it fails with the error
      "no running pods found for <deployName>" and touches nothing. *)
Theorem NewPortForward_selects_first_running
    (k8sAPI : KubernetesAPI) (namespace deployName : string)
    (localPort remotePort : Z) (emitLogs : bool) (items : list Pod) :
  PodsList k8sAPI namespace 30 = Ok items ->
  (forall before pod after,
      items = before ++ pod :: after ->
      Forall (fun p => ~ matches deployName p) before ->
      matches deployName pod ->
      Name pod <> "" ->
      NewPortForward k8sAPI namespace deployName localPort remotePort emitLogs
      = newPortForward k8sAPI namespace (Name pod) localPort remotePort emitLogs)
  /\ (Forall (fun p => ~ matches deployName p) items ->
      forall w,
        NewPortForward k8sAPI namespace deployName localPort remotePort emitLogs w
        = Returned
            (Err (errorString ("no running pods found for " +:+ deployName))) w).
Proof.
  intros Hlist. split.
  - intros before pod after -> Hbefore Hpod Hname.
    unfold NewPortForward. rewrite Hlist.
    rewrite selectPodName_first by assumption.
    apply String.eqb_neq in Hname. rewrite Hname. reflexivity.
  - intros Hnone w. unfold NewPortForward. rewrite Hlist.
    rewrite selectPodName_none by assumption.
    rewrite String.eqb_refl. unfold Errorf.
    rewrite Sprintf_no_running_pods. reflexivity.
Qed.

Ltac no_match :=
  let Hp := fresh in let Hn := fresh in let rest := fresh in
  intros [Hp [rest Hn]]; cbv in Hp, Hn; congruence.

Lemma NewPortForward_selects_first_running_witness :
  NewPortForward demo_api "prod" "web" 0 8080 true
  = newPortForward demo_api "prod" "web-2" 0 8080 true
  /\ forall w,
      NewPortForward demo_api "prod" "ghost" 0 8080 true w
      = Returned (Err (errorString "no running pods found for ghost")) w.
Proof.
  split.
  - apply (proj1 (NewPortForward_selects_first_running
                    demo_api "prod" "web" 0 8080 true demo_pods eq_refl)
             [mkPod "web-1" "prod" "Pending" []; mkPod "api-1" "prod" "Running" []]
             (mkPod "web-2" "prod" "Running" [])
             [mkPod "web-3" "prod" "Running" []]).
    + reflexivity.
    + repeat constructor; no_match.
    + split; [reflexivity | exists "-2"; reflexivity].
    + discriminate.
  - apply (proj2 (NewPortForward_selects_first_running
                    demo_api "prod" "ghost" 0 8080 true demo_pods eq_refl)).
    repeat constructor; no_match.
Defined.

(** C1 as stated fails on a pod list whose first matching pod has the empty
    name: the loop stores that name in [podName], and the test
    [podName == ""] then takes the pod for "none found". *)
Lemma NewPortForward_empty_name_counterexample :
  let pod := mkPod "" "prod" PodRunning [] in
  let api := mkKubernetesAPI (mkConfig "https://cluster.example") (fun _ _ => Ok [pod]) in
  matches "" pod
  /\ NewPortForward api "prod" "" 0 8080 false demo_world
     = Returned (Err (errorString "no running pods found for ")) demo_world
  /\ NewPortForward api "prod" "" 0 8080 false demo_world
     <> newPortForward api "prod" (Name pod) 0 8080 false demo_world.
Proof.
  cbv zeta. split; [|split].
  - split; [reflexivity | exists ""; reflexivity].
  - reflexivity.
  - vm_compute. discriminate.
Qed.

(** ** The ephemeral port allocator *)

Lemma getEphemeralPort_unfold (w : World) :
  getEphemeralPort w =
  let n := listen_calls w in
  match os_listen (env w) n with
  | Refused msg =>
      Returned (Err (foreign NetListen msg)) (set_listeners (S n) (open_listeners w) w)
  | Bound addr =>
      Returned
        match addr with
        | TCPAddr port => Ok port
        | OtherAddr text => Err (errorString ("invalid listen address: " +:+ text))
        end
        (ln_Close (mkListener n addr) (set_listeners (S n) (n :: open_listeners w) w))
  end.
Proof.
  unfold getEphemeralPort, mbind, M_bind, bind, net_Listen. cbv zeta.
  destruct (os_listen (env w) (listen_calls w)) as [[port|text]|msg]; try reflexivity.
  unfold defer, mret, M_ret, ret, Errorf. cbn [ln_addr AddrString].
  rewrite Sprintf_invalid_listen. reflexivity.
Qed.

Lemma ln_Close_releases (n : nat) (addr : Addr) (w : World) :
  (n ∉ open_listeners (ln_Close (mkListener n addr) w))
  /\ forall i, i <> n ->
       (i ∈ open_listeners (ln_Close (mkListener n addr) w) <-> i ∈ open_listeners w).
Proof.
  unfold ln_Close. simpl. split.
  - rewrite list_elem_of_filter. tauto.
  - intros i Hi. rewrite list_elem_of_filter. tauto.
Qed.

(** The allocator never panics, and makes exactly one listen call. *)
Lemma getEphemeralPort_returns (w : World) :
  exists r w',
    getEphemeralPort w = Returned r w' /\ listen_calls w' = S (listen_calls w).
Proof.
  rewrite getEphemeralPort_unfold. cbv zeta.
  destruct (os_listen (env w) (listen_calls w)); eexists _, _; split; reflexivity.
Qed.

(** C7. [getEphemeralPort] always returns. It fails exactly when the
    operating system refuses the listen on port 0 of the wildcard address,
    or when the address of the bound socket is not a TCP address; otherwise
    it returns the port read back from the bound socket. Whenever a socket
    was bound, on the failing path as on the succeeding one, that listener
    is closed again on return and no other listener is touched; when none
    was bound there is nothing to release. *)
Theorem getEphemeralPort_spec (w : World) :
  let n := listen_calls w in
  exists r w',
    getEphemeralPort w = Returned r w'
    /\ match os_listen (env w) n with
       | Refused msg =>
           r = Err (foreign NetListen msg)
           /\ open_listeners w' = open_listeners w
       | Bound addr =>
           r = match addr with
               | TCPAddr port => Ok port
               | OtherAddr text =>
                   Err (errorString ("invalid listen address: " +:+ text))
               end
           /\ (n ∉ open_listeners w')
           /\ forall i, i <> n -> (i ∈ open_listeners w' <-> i ∈ open_listeners w)
       end
    /\ (is_err r = true <->
        (exists msg, os_listen (env w) n = Refused msg)
        \/ (exists text, os_listen (env w) n = Bound (OtherAddr text)))
    /\ listen_calls w' = S n
    /\ chans w' = chans w /\ next_chan w' = next_chan w.
Proof.
  intros n. rewrite getEphemeralPort_unfold. fold n. cbv zeta.
  destruct (os_listen (env w) n) as [addr|msg] eqn:Hos.
  - eexists _, _. split; [reflexivity|].
    pose proof (ln_Close_releases n addr
                  (set_listeners (S n) (n :: open_listeners w) w)) as [Hrel Hkeep].
    repeat split; try reflexivity; try exact Hrel.
    + intros Hi. apply Hkeep in Hi; [|assumption]. simpl in Hi.
      apply elem_of_cons in Hi as [Hi|Hi]; [contradiction | assumption].
    + intros Hi. apply Hkeep; [assumption|]. simpl. now apply elem_of_cons; right.
    + destruct addr as [port|text]; simpl; [discriminate|].
      intros _. right. now exists text.
    + destruct addr as [port|text]; simpl; [|reflexivity].
      intros [[msg Hmsg] | [text Htext]]; congruence.
  - eexists _, _. split; [reflexivity|].
    repeat split; try reflexivity.
    intros _. left. now exists msg.
Qed.

Lemma getEphemeralPort_spec_witness :
  exists w',
    getEphemeralPort demo_world = Returned (Ok 40000) w'
    /\ open_listeners w' = [] /\ listen_calls w' = 1%nat.
Proof.
  destruct (getEphemeralPort_spec demo_world) as (r & w' & Hrun & Hcase & _ & Hcalls & _).
  simpl in Hcase. destruct Hcase as (-> & Hrel & Hkeep).
  exists w'. repeat split; [exact Hrun | | exact Hcalls].
  rewrite getEphemeralPort_unfold in Hrun. injection Hrun as <-. reflexivity.
Defined.

(** ** Construction of the session *)

Lemma newPortForward_nonzero (k8sAPI : KubernetesAPI) (namespace podName : string)
    (localPort remotePort : Z) (emitLogs : bool) (w : World) :
  localPort <> 0 ->
  newPortForward k8sAPI namespace podName localPort remotePort emitLogs w
  = Returned (Ok (session_in k8sAPI namespace podName localPort remotePort emitLogs w))
      (with_session_chans w).
Proof.
  intros Hport. apply Z.eqb_neq in Hport.
  unfold newPortForward. rewrite Hport. reflexivity.
Qed.

Lemma newPortForward_zero (k8sAPI : KubernetesAPI) (namespace podName : string)
    (remotePort : Z) (emitLogs : bool) (w : World) :
  newPortForward k8sAPI namespace podName 0 remotePort emitLogs w
  = match getEphemeralPort w with
    | Returned (Ok port) w1 =>
        Returned (Ok (session_in k8sAPI namespace podName port remotePort emitLogs w1))
          (with_session_chans w1)
    | Returned (Err err) w1 => Returned (Err err) w1
    | Panicked msg w1 => Panicked msg w1
    end.
Proof.
  unfold newPortForward. cbn [Z.eqb]. unfold mbind, M_bind, bind.
  destruct (getEphemeralPort w) as [[port|err] w1|msg w1]; reflexivity.
Qed.

(** C5. For every construction of a session:
    - with [localPort = 0] the allocator is called; when it fails,
      construction fails with the allocator's error, and when it returns a
      port, that port is the session's local port;
    - with a nonzero [localPort] the session's local port is that value
      unchanged, and no listen call is made (nothing is checked). *)
Theorem newPortForward_local_port (k8sAPI : KubernetesAPI)
    (namespace podName : string) (requested remotePort : Z) (emitLogs : bool)
    (w : World) :
  (requested = 0 ->
     match getEphemeralPort w with
     | Returned (Ok port) w1 =>
         exists pf w2,
           newPortForward k8sAPI namespace podName requested remotePort emitLogs w
           = Returned (Ok pf) w2
           /\ localPort pf = port
           /\ listen_calls w2 = S (listen_calls w)
     | Returned (Err err) w1 =>
         newPortForward k8sAPI namespace podName requested remotePort emitLogs w
         = Returned (Err err) w1
     | Panicked _ _ => False
     end)
  /\ (requested <> 0 ->
      exists pf w2,
        newPortForward k8sAPI namespace podName requested remotePort emitLogs w
        = Returned (Ok pf) w2
        /\ localPort pf = requested
        /\ listen_calls w2 = listen_calls w
        /\ open_listeners w2 = open_listeners w).
Proof.
  split.
  - intros ->. rewrite newPortForward_zero.
    destruct (getEphemeralPort_returns w) as (r & w1 & Hrun & Hcalls).
    rewrite Hrun. destruct r as [port|err]; [|reflexivity].
    eexists _, _. repeat split. exact Hcalls.
  - intros Hport. rewrite newPortForward_nonzero by assumption.
    eexists _, _. repeat split.
Qed.

Lemma newPortForward_local_port_witness :
  (exists pf w2,
      newPortForward demo_api "prod" "web-2" 0 8080 true demo_world = Returned (Ok pf) w2
      /\ localPort pf = 40000)
  /\ (exists pf w2,
      newPortForward demo_api "prod" "web-2" 7777 8080 true demo_world = Returned (Ok pf) w2
      /\ localPort pf = 7777 /\ listen_calls w2 = 0%nat).
Proof.
  destruct (newPortForward_local_port demo_api "prod" "web-2" 0 8080 true demo_world)
    as [Hzero _].
  destruct (newPortForward_local_port demo_api "prod" "web-2" 7777 8080 true demo_world)
    as [_ Hnonzero].
  specialize (Hzero eq_refl). specialize (Hnonzero ltac:(discriminate)).
  split.
  - rewrite getEphemeralPort_unfold in Hzero. simpl in Hzero.
    destruct Hzero as (pf & w2 & Hrun & Hport & _). now exists pf, w2.
  - destruct Hnonzero as (pf & w2 & Hrun & Hport & Hcalls & _). now exists pf, w2.
Defined.

(** ** The proxy-metrics variant *)

Section ProxyMetricsProofs.

Variable ProxyContainerName : string.
Variable ProxyAdminPortName : string.

Lemma findContainer_skip (before rest : list Container) (container : Container) :
  Forall (fun c => ContainerName c <> ProxyContainerName) before ->
  findContainer ProxyContainerName (before ++ rest) container = findContainer ProxyContainerName rest container.
Proof.
  induction 1 as [|c before Hc _ IH]; [reflexivity|].
  simpl. apply String.eqb_neq in Hc. now rewrite Hc.
Qed.

Lemma findContainer_first (before after : list Container) (c container : Container) :
  Forall (fun c' => ContainerName c' <> ProxyContainerName) before ->
  ContainerName c = ProxyContainerName ->
  findContainer ProxyContainerName (before ++ c :: after) container = c.
Proof.
  intros Hbefore Hc. rewrite findContainer_skip by assumption.
  simpl. apply String.eqb_eq in Hc. now rewrite Hc.
Qed.

Lemma findContainer_none (cs : list Container) (container : Container) :
  Forall (fun c => ContainerName c <> ProxyContainerName) cs ->
  findContainer ProxyContainerName cs container = container.
Proof.
  intros Hnone. rewrite <- (app_nil_r cs). now rewrite findContainer_skip.
Qed.

Lemma findPort_skip (before rest : list ContainerPort) (port : ContainerPort) :
  Forall (fun p => PortName p <> ProxyAdminPortName) before ->
  findPort ProxyAdminPortName (before ++ rest) port = findPort ProxyAdminPortName rest port.
Proof.
  induction 1 as [|p before Hp _ IH]; [reflexivity|].
  simpl. apply String.eqb_neq in Hp. now rewrite Hp.
Qed.

Lemma findPort_first (before after : list ContainerPort) (p port : ContainerPort) :
  Forall (fun p' => PortName p' <> ProxyAdminPortName) before ->
  PortName p = ProxyAdminPortName ->
  findPort ProxyAdminPortName (before ++ p :: after) port = p.
Proof.
  intros Hbefore Hp. rewrite findPort_skip by assumption.
  simpl. apply String.eqb_eq in Hp. now rewrite Hp.
Qed.

Lemma findPort_none (ps : list ContainerPort) (port : ContainerPort) :
  Forall (fun p => PortName p <> ProxyAdminPortName) ps ->
  findPort ProxyAdminPortName ps port = port.
Proof.
  intros Hnone. rewrite <- (app_nil_r ps). now rewrite findPort_skip.
Qed.

(** The phase test comes first: a pod that is not [Running] fails with
    "pod not running", whatever it contains. *)
Lemma not_running_fails (k8sAPI : KubernetesAPI) (pod : Pod)
    (emitLogs : bool) (w : World) :
  Phase pod <> PodRunning ->
  NewProxyMetricsForward ProxyContainerName ProxyAdminPortName k8sAPI pod emitLogs w
  = Returned (Err (errorString ("pod not running: " +:+ Name pod))) w.
Proof.
  intros Hphase. apply String.eqb_neq in Hphase.
  unfold NewProxyMetricsForward. rewrite Hphase. cbn [negb].
  unfold Errorf. rewrite Sprintf_pod_not_running. reflexivity.
Qed.

(** A [Running] pod without a container of the wanted name. *)
Lemma no_container_fails (k8sAPI : KubernetesAPI) (pod : Pod)
    (emitLogs : bool) (w : World) :
  Phase pod = PodRunning ->
  ProxyContainerName <> "" ->
  Forall (fun c => ContainerName c <> ProxyContainerName) (Containers pod) ->
  NewProxyMetricsForward ProxyContainerName ProxyAdminPortName k8sAPI pod emitLogs w
  = Returned
      (Err (errorString ("no " +:+ ProxyContainerName
                         +:+ " container found for pod " +:+ Name pod))) w.
Proof.
  intros Hphase Hnonempty Hnone. apply String.eqb_eq in Hphase.
  unfold NewProxyMetricsForward. rewrite Hphase. cbn [negb].
  rewrite findContainer_none by assumption. cbn [ContainerName zeroContainer].
  assert (String.eqb "" ProxyContainerName = false) as ->
    by (apply String.eqb_neq; congruence).
  cbn [negb]. unfold Errorf. rewrite Sprintf_no_container. reflexivity.
Qed.

(** A [Running] pod whose sidecar container has no port of the wanted
    name. *)
Lemma no_port_fails (k8sAPI : KubernetesAPI) (pod : Pod)
    (emitLogs : bool) (w : World) (before after : list Container) (c : Container) :
  Phase pod = PodRunning ->
  ProxyAdminPortName <> "" ->
  Containers pod = before ++ c :: after ->
  Forall (fun c' => ContainerName c' <> ProxyContainerName) before ->
  ContainerName c = ProxyContainerName ->
  Forall (fun p => PortName p <> ProxyAdminPortName) (Ports c) ->
  NewProxyMetricsForward ProxyContainerName ProxyAdminPortName k8sAPI pod emitLogs w
  = Returned
      (Err (errorString ("no " +:+ ProxyAdminPortName
                         +:+ " port found for container " +:+ Name pod
                         +:+ "/" +:+ ProxyContainerName))) w.
Proof.
  intros Hphase Hnonempty Hcs Hbefore Hc Hports. apply String.eqb_eq in Hphase.
  unfold NewProxyMetricsForward. rewrite Hphase, Hcs. cbn [negb].
  rewrite findContainer_first by assumption.
  rewrite Hc, String.eqb_refl. cbn [negb].
  rewrite findPort_none by assumption. cbn [PortName zeroContainerPort].
  assert (String.eqb "" ProxyAdminPortName = false) as ->
    by (apply String.eqb_neq; congruence).
  cbn [negb]. unfold Errorf. rewrite Sprintf_no_port. reflexivity.
Qed.

(** A [Running] pod with the sidecar container and its admin port. *)
Lemma found_forwards (k8sAPI : KubernetesAPI) (pod : Pod) (emitLogs : bool)
    (before after : list Container) (c : Container)
    (pbefore pafter : list ContainerPort) (p : ContainerPort) :
  Phase pod = PodRunning ->
  Containers pod = before ++ c :: after ->
  Forall (fun c' => ContainerName c' <> ProxyContainerName) before ->
  ContainerName c = ProxyContainerName ->
  Ports c = pbefore ++ p :: pafter ->
  Forall (fun p' => PortName p' <> ProxyAdminPortName) pbefore ->
  PortName p = ProxyAdminPortName ->
  NewProxyMetricsForward ProxyContainerName ProxyAdminPortName k8sAPI pod emitLogs
  = newPortForward k8sAPI (Namespace pod) (Name pod) 0 (ContainerPortNumber p) emitLogs.
Proof.
  intros Hphase Hcs Hbefore Hc Hps Hpbefore Hp. apply String.eqb_eq in Hphase.
  unfold NewProxyMetricsForward. rewrite Hphase, Hcs. cbn [negb].
  rewrite findContainer_first by assumption.
  rewrite Hc, String.eqb_refl, Hps. cbn [negb].
  rewrite findPort_first by assumption.
  rewrite Hp, String.eqb_refl. reflexivity.
Qed.

(** Whenever a session comes back, it was built by [newPortForward] with
    local port 0 and the port the lookup found. *)
Lemma success_inversion (k8sAPI : KubernetesAPI) (pod : Pod) (emitLogs : bool)
    (w w' : World) (pf : PortForward) :
  NewProxyMetricsForward ProxyContainerName ProxyAdminPortName k8sAPI pod emitLogs w
  = Returned (Ok pf) w' ->
  let port :=
    findPort ProxyAdminPortName
      (Ports (findContainer ProxyContainerName (Containers pod) zeroContainer))
      zeroContainerPort in
  Phase pod = PodRunning
  /\ PortName port = ProxyAdminPortName
  /\ newPortForward k8sAPI (Namespace pod) (Name pod) 0 (ContainerPortNumber port)
       emitLogs w = Returned (Ok pf) w'.
Proof.
  intros Hrun. cbv zeta.
  set (port := findPort ProxyAdminPortName
                 (Ports (findContainer ProxyContainerName (Containers pod) zeroContainer))
                 zeroContainerPort).
  unfold NewProxyMetricsForward in Hrun. cbv zeta in Hrun.
  destruct (String.eqb (Phase pod) PodRunning) eqn:Hphase; cbn [negb] in Hrun;
    [|discriminate Hrun].
  destruct (String.eqb
              (ContainerName (findContainer ProxyContainerName (Containers pod) zeroContainer))
              ProxyContainerName) eqn:Hc; cbn [negb] in Hrun; [|discriminate Hrun].
  fold port in Hrun.
  destruct (String.eqb (PortName port) ProxyAdminPortName) eqn:Hp;
    cbn [negb] in Hrun; [|discriminate Hrun].
  repeat split; [now apply String.eqb_eq | now apply String.eqb_eq | exact Hrun].
Qed.

(** C3, as amended. [NewProxyMetricsForward] verifies the phase itself,
    before any lookup: for every pod whose phase is not [Running] it fails
    with "pod not running: <name>", whatever containers and ports the pod
    declares, and leaves the world as it was. *)
Theorem NewProxyMetricsForward_checks_phase (k8sAPI : KubernetesAPI) (pod : Pod)
    (emitLogs : bool) (w : World) :
  Phase pod <> PodRunning ->
  NewProxyMetricsForward ProxyContainerName ProxyAdminPortName k8sAPI pod emitLogs w
  = Returned (Err (errorString ("pod not running: " +:+ Name pod))) w.
Proof. apply not_running_fails. Qed.

(** C4, as amended. Let both label constants be non-empty. Every pod that
    lacks the sidecar container, or whose sidecar container lacks the admin
    port, makes [NewProxyMetricsForward] fail with an error of the one kind
    [fmt.Errorf] builds, and the world is untouched. If the pod is [Running]
    the message names the lookup that failed: the container one or the port
    one. If it is not, the message is the one of the phase test. *)
Theorem NewProxyMetricsForward_lookup_failure (k8sAPI : KubernetesAPI) (pod : Pod)
    (emitLogs : bool) (w : World) :
  ProxyContainerName <> "" ->
  ProxyAdminPortName <> "" ->
  lacks_container ProxyContainerName pod \/ lacks_port ProxyContainerName ProxyAdminPortName pod ->
  exists msg,
    NewProxyMetricsForward ProxyContainerName ProxyAdminPortName k8sAPI pod emitLogs w
    = Returned (Err (errorString msg)) w
    /\ (Phase pod = PodRunning -> lacks_container ProxyContainerName pod ->
        msg = "no " +:+ ProxyContainerName +:+ " container found for pod " +:+ Name pod)
    /\ (Phase pod = PodRunning -> lacks_port ProxyContainerName ProxyAdminPortName pod ->
        msg = "no " +:+ ProxyAdminPortName +:+ " port found for container "
              +:+ Name pod +:+ "/" +:+ ProxyContainerName)
    /\ (Phase pod <> PodRunning -> msg = "pod not running: " +:+ Name pod).
Proof.
  intros Hcname Hpname Hlacks.
  destruct (String.eqb_spec (Phase pod) PodRunning) as [Hphase|Hphase].
  - destruct Hlacks as [Hc | Hp].
    + eexists. split; [now apply no_container_fails|].
      repeat split; [| contradiction].
      intros _ (before & c & after & Hcs & _ & Hname & _). exfalso.
      unfold lacks_container in Hc. rewrite Hcs in Hc.
      apply Forall_app in Hc as [_ Hc]. inversion Hc; subst. contradiction.
    + pose proof Hp as (before & c & after & Hcs & Hbefore & Hname & Hports).
      eexists. split; [now eapply no_port_fails; eauto|].
      repeat split; [| contradiction].
      intros _ Hc. exfalso.
      unfold lacks_container in Hc. rewrite Hcs in Hc.
      apply Forall_app in Hc as [_ Hc]. inversion Hc; subst. contradiction.
  - eexists. split; [now apply not_running_fails|].
    repeat split; intros; contradiction.
Qed.

(** C10. [NewProxyMetricsForward] has no local-port parameter and passes 0
    to [newPortForward]:
    - for a [Running] pod whose sidecar container [c] declares the admin
      port [p] (each the first of its name), the outcome is decided by the
      allocator alone: its failure is the failure of the construction, and
      the port it returns becomes the session's local port, the remote port
      being [p]'s declared container port;
    - every session that comes back, for whatever pod, has as local port
      the port the allocator returned in that call, and as remote port the
      container port of the admin port the lookup found. *)
Theorem NewProxyMetricsForward_ephemeral (k8sAPI : KubernetesAPI) (pod : Pod)
    (emitLogs : bool) (w : World) :
  (forall before c after pbefore p pafter,
      Phase pod = PodRunning ->
      Containers pod = before ++ c :: after ->
      Forall (fun c' => ContainerName c' <> ProxyContainerName) before ->
      ContainerName c = ProxyContainerName ->
      Ports c = pbefore ++ p :: pafter ->
      Forall (fun p' => PortName p' <> ProxyAdminPortName) pbefore ->
      PortName p = ProxyAdminPortName ->
      match getEphemeralPort w with
      | Returned (Ok port) w1 =>
          exists pf w2,
            NewProxyMetricsForward ProxyContainerName ProxyAdminPortName
              k8sAPI pod emitLogs w = Returned (Ok pf) w2
            /\ localPort pf = port
            /\ remotePort pf = ContainerPortNumber p
      | Returned (Err err) w1 =>
          NewProxyMetricsForward ProxyContainerName ProxyAdminPortName
            k8sAPI pod emitLogs w = Returned (Err err) w1
      | Panicked _ _ => False
      end)
  /\ (forall pf w',
        NewProxyMetricsForward ProxyContainerName ProxyAdminPortName
          k8sAPI pod emitLogs w = Returned (Ok pf) w' ->
        let port :=
          findPort ProxyAdminPortName
            (Ports (findContainer ProxyContainerName (Containers pod) zeroContainer))
            zeroContainerPort in
        (exists w1, getEphemeralPort w = Returned (Ok (localPort pf)) w1)
        /\ PortName port = ProxyAdminPortName
        /\ remotePort pf = ContainerPortNumber port).
Proof.
  split.
  - intros before c after pbefore p pafter Hphase Hcs Hbefore Hc Hps Hpbefore Hp.
    rewrite (found_forwards k8sAPI pod emitLogs before after c pbefore pafter p)
      by assumption.
    rewrite newPortForward_zero.
    destruct (getEphemeralPort_returns w) as (r & w1 & Hrun & _).
    rewrite Hrun. destruct r as [port|err]; [|reflexivity].
    eexists _, _. repeat split.
  - intros pf w' Hrun port.
    apply success_inversion in Hrun as (_ & Hname & Hrun). fold port in Hname, Hrun.
    rewrite newPortForward_zero in Hrun.
    destruct (getEphemeralPort w) as [[got|err] w1|msg w1]; try discriminate Hrun.
    injection Hrun as <- <-. repeat split; [now exists w1 | exact Hname].
Qed.

End ProxyMetricsProofs.

(** ** The proxy-metrics variant on concrete pods *)

Lemma NewProxyMetricsForward_checks_phase_witness :
  NewProxyMetricsForward "linkerd-proxy" "linkerd-admin" demo_api
    (meshed_pod "Pending") false demo_world
  = Returned (Err (errorString "pod not running: web-7f8")) demo_world.
Proof.
  apply (NewProxyMetricsForward_checks_phase "linkerd-proxy" "linkerd-admin"
           demo_api (meshed_pod "Pending") false demo_world).
  discriminate.
Defined.

(** C3 as stated fails: two pods that differ in nothing but the phase get
    different results, a session for the [Running] one and the
    "pod not running" error for the other. *)
Lemma phase_independence_counterexample :
  Name (meshed_pod "Running") = Name (meshed_pod "Pending")
  /\ Namespace (meshed_pod "Running") = Namespace (meshed_pod "Pending")
  /\ Containers (meshed_pod "Running") = Containers (meshed_pod "Pending")
  /\ NewProxyMetricsForward "linkerd-proxy" "linkerd-admin" demo_api
       (meshed_pod "Running") false demo_world
     <> NewProxyMetricsForward "linkerd-proxy" "linkerd-admin" demo_api
          (meshed_pod "Pending") false demo_world.
Proof.
  repeat split. vm_compute. discriminate.
Qed.

Lemma NewProxyMetricsForward_lookup_failure_witness :
  (exists msg,
      NewProxyMetricsForward "linkerd-proxy" "linkerd-admin" demo_api
        (unmeshed_pod "Running") false demo_world
      = Returned (Err (errorString msg)) demo_world
      /\ msg = "no linkerd-proxy container found for pod web-7f8")
  /\ (exists msg,
      NewProxyMetricsForward "linkerd-proxy" "linkerd-admin" demo_api
        no_admin_pod false demo_world
      = Returned (Err (errorString msg)) demo_world
      /\ msg = "no linkerd-admin port found for container web-7f8/linkerd-proxy").
Proof.
  assert (Hc : lacks_container "linkerd-proxy" (unmeshed_pod "Running")).
  { repeat constructor. discriminate. }
  assert (Hp : lacks_port "linkerd-proxy" "linkerd-admin" no_admin_pod).
  { exists [app_container],
      (mkContainer "linkerd-proxy" [mkContainerPort "linkerd-proxy" 4143]), [].
    repeat split; repeat constructor; discriminate. }
  split.
  - destruct (NewProxyMetricsForward_lookup_failure "linkerd-proxy" "linkerd-admin"
                demo_api (unmeshed_pod "Running") false demo_world
                ltac:(discriminate) ltac:(discriminate) (or_introl Hc))
      as (msg & Hrun & Hmsg & _).
    exists msg. split; [exact Hrun | exact (Hmsg eq_refl Hc)].
  - destruct (NewProxyMetricsForward_lookup_failure "linkerd-proxy" "linkerd-admin"
                demo_api no_admin_pod false demo_world
                ltac:(discriminate) ltac:(discriminate) (or_intror Hp))
      as (msg & Hrun & _ & Hmsg & _).
    exists msg. split; [exact Hrun | exact (Hmsg eq_refl Hp)].
Defined.

(** C4 as stated fails on a pod that lacks the sidecar container and is not
    [Running]: the error it gets is the one of the phase test, and its
    message names neither lookup. *)
Lemma lookup_message_counterexample :
  lacks_container "linkerd-proxy" (unmeshed_pod "Pending")
  /\ NewProxyMetricsForward "linkerd-proxy" "linkerd-admin" demo_api
       (unmeshed_pod "Pending") false demo_world
     = Returned (Err (errorString "pod not running: web-7f8")) demo_world
  /\ "pod not running: web-7f8"
     <> "no linkerd-proxy container found for pod web-7f8"
  /\ "pod not running: web-7f8"
     <> "no linkerd-admin port found for container web-7f8/linkerd-proxy".
Proof.
  repeat split; try discriminate.
  repeat constructor. discriminate.
Qed.

Lemma NewProxyMetricsForward_ephemeral_witness :
  exists pf w2,
    NewProxyMetricsForward "linkerd-proxy" "linkerd-admin" demo_api
      (meshed_pod "Running") false demo_world = Returned (Ok pf) w2
    /\ localPort pf = 40000 /\ remotePort pf = 4191.
Proof.
  pose proof (proj1 (NewProxyMetricsForward_ephemeral "linkerd-proxy" "linkerd-admin"
                       demo_api (meshed_pod "Running") false demo_world)
                [app_container] sidecar []
                [mkContainerPort "linkerd-proxy" 4143]
                (mkContainerPort "linkerd-admin" 4191) []) as H.
  rewrite getEphemeralPort_unfold in H. simpl in H.
  apply H; try reflexivity; repeat constructor; discriminate.
Defined.

(** ** [%d] prints the decimal numeral of its argument *)

Lemma digitValue_digitChar (d : Z) :
  0 <= d < 10 -> digitValue (digitChar d) = Some d.
Proof.
  intros Hd.
  assert (d = 0 \/ d = 1 \/ d = 2 \/ d = 3 \/ d = 4
          \/ d = 5 \/ d = 6 \/ d = 7 \/ d = 8 \/ d = 9) as Hcases by lia.
  repeat (destruct Hcases as [-> | Hcases]; [reflexivity|]).
  subst d. reflexivity.
Qed.

(** Reading back what the digit loop wrote in front of the buffer gives the
    number, shifted into whatever had been read before. *)
Lemma parseDigits_utoa (fuel : nat) :
  forall (u : Z) (buf : string),
    0 <= u < 10 ^ Z.of_nat (S fuel) ->
    exists ds k,
      utoa (S fuel) u buf = ds +:+ buf
      /\ ds <> ""
      /\ 0 <= k
      /\ forall rest acc,
           parseDigits (ds +:+ rest) acc = parseDigits rest (acc * 10 ^ k + u).
Proof.
  induction fuel as [|fuel IH]; intros u buf Hu.
  - assert (u < 10) as Hlt by (change (10 ^ Z.of_nat 1) with 10 in Hu; lia).
    exists (String (digitChar u) ""), 1. cbn [utoa].
    apply Z.ltb_lt in Hlt as Hltb. rewrite Hltb.
    repeat split; [discriminate | lia |].
    intros rest acc. rewrite append_cons, append_nil_l. cbn [parseDigits].
    rewrite digitValue_digitChar by lia. f_equal. lia.
  - change (utoa (S (S fuel)) u buf)
      with (if u <? 10 then String (digitChar u) buf
            else utoa (S fuel) (u / 10) (String (digitChar (u mod 10)) buf)).
    destruct (u <? 10) eqn:Hltb.
    + apply Z.ltb_lt in Hltb.
      exists (String (digitChar u) ""), 1.
      repeat split; [discriminate | lia |].
      intros rest acc. rewrite append_cons, append_nil_l. cbn [parseDigits].
      rewrite digitValue_digitChar by lia. f_equal. lia.
    + apply Z.ltb_ge in Hltb.
      assert (0 <= u / 10 < 10 ^ Z.of_nat (S fuel)) as Hdiv.
      { split; [apply Z.div_pos; lia|].
        apply Z.div_lt_upper_bound; [lia|].
        replace (Z.of_nat (S (S fuel))) with (Z.succ (Z.of_nat (S fuel))) in Hu by lia.
        rewrite Z.pow_succ_r in Hu by lia. lia. }
      destruct (IH (u / 10) (String (digitChar (u mod 10)) buf) Hdiv)
        as (ds & k & Heq & Hne & Hk & Hparse).
      exists (ds +:+ String (digitChar (u mod 10)) ""), (k + 1).
      repeat split.
      * rewrite Heq, append_assoc, append_cons, append_nil_l. reflexivity.
      * destruct ds; [congruence | discriminate].
      * lia.
      * intros rest acc.
        rewrite append_assoc, append_cons, append_nil_l, Hparse.
        cbn [parseDigits].
        pose proof (Z.mod_pos_bound u 10 ltac:(lia)) as Hmod.
        rewrite digitValue_digitChar by lia. f_equal.
        rewrite Z.pow_add_r by lia. change (10 ^ 1) with 10.
        pose proof (Z.div_mod u 10 ltac:(lia)) as Hdm. lia.
Qed.

Lemma fuel_suffices (u : Z) :
  0 <= u -> u < 10 ^ Z.of_nat (S (Z.to_nat (Z.log2 u))).
Proof.
  intros Hu.
  pose proof (Z.log2_nonneg u) as Hlog.
  replace (Z.of_nat (S (Z.to_nat (Z.log2 u)))) with (Z.succ (Z.log2 u)) by lia.
  destruct (Z.eq_dec u 0) as [-> | Hpos].
  - reflexivity.
  - destruct (Z.log2_spec u ltac:(lia)) as [_ Hupper].
    eapply Z.lt_le_trans; [exact Hupper|].
    apply Z.pow_le_mono_l. lia.
Qed.

(** The digits [%d] prints for a non-negative number read back as it. *)
Lemma parseDigits_digits (u : Z) :
  0 <= u ->
  exists ds,
    utoa (S (Z.to_nat (Z.log2 u))) u "" = ds
    /\ ds <> "" /\ parseDigits ds 0 = Some u.
Proof.
  intros Hu.
  destruct (parseDigits_utoa (Z.to_nat (Z.log2 u)) u ""
              (conj Hu (fuel_suffices u Hu)))
    as (ds & k & Heq & Hne & Hk & Hparse).
  exists ds. rewrite Heq, append_empty_r. repeat split; [assumption|].
  specialize (Hparse "" 0). rewrite append_empty_r in Hparse.
  rewrite Hparse. reflexivity.
Qed.

Lemma atoi_fmt_d (z : Z) : atoi (fmt_d z) = Some z.
Proof.
  unfold fmt_d. cbv zeta.
  destruct (parseDigits_digits (Z.abs z) (Z.abs_nonneg z)) as (ds & -> & Hne & Hparse).
  destruct ds as [|c ds]; [congruence|].
  destruct (z <? 0) eqn:Hneg.
  - apply Z.ltb_lt in Hneg. cbn [atoi]. rewrite Hparse. cbn [option_map].
    f_equal. lia.
  - apply Z.ltb_ge in Hneg.
    assert (c <> "-"%char) as Hc.
    { intros ->. cbn in Hparse. discriminate. }
    replace (atoi (String c ds)) with (parseDigits (String c ds) 0).
    + rewrite Hparse. f_equal. lia.
    + unfold atoi.
      destruct c as [[] [] [] [] [] [] [] []];
        try reflexivity; try (destruct ds; reflexivity).
      exfalso. apply Hc. reflexivity.
Qed.

(** C9. For every session and every path, [URLFor] returns the text
    "http://127.0.0.1:", followed by the decimal numeral of the session's
    local port, followed by the path: a function of the session and the
    path alone, which reads and writes nothing of the world. *)
Theorem URLFor_format (pf : PortForward) (path : string) :
  URLFor pf path = "http://127.0.0.1:" +:+ fmt_d (localPort pf) +:+ path
  /\ atoi (fmt_d (localPort pf)) = Some (localPort pf).
Proof.
  split; [|apply atoi_fmt_d].
  unfold URLFor. cbn [Sprintf]. rewrite append_empty_r. reflexivity.
Qed.

Example URLFor_ready :
  URLFor demo_session "/ready" = "http://127.0.0.1:7777/ready".
Proof. reflexivity. Qed.

Example fmt_d_samples :
  fmt_d 0 = "0" /\ fmt_d 9998 = "9998" /\ fmt_d 65535 = "65535"
  /\ fmt_d (-15) = "-15" /\ fmt_d 9223372036854775807 = "9223372036854775807".
Proof. repeat split. Qed.

(** ** [Stop] *)

Lemma close_open (c : nat) (ch : Chan) (w : World) :
  chans w !! c = Some ch ->
  ch_closed ch = false ->
  close c w
  = Returned tt (set_chans (<[c := mkChan (ch_cap ch) true]> (chans w)) (next_chan w) w).
Proof. intros Hch Hopen. unfold close. now rewrite Hch, Hopen. Qed.

Lemma close_fired (c : nat) (w : World) :
  fired c w = true -> close c w = Panicked "close of closed channel" w.
Proof.
  unfold fired, close. destruct (chans w !! c) as [ch|]; [|discriminate].
  now intros ->.
Qed.

Lemma close_panics_or_fires (c : nat) (w : World) :
  (exists msg, close c w = Panicked msg w)
  \/ (exists w', close c w = Returned tt w' /\ fired c w' = true).
Proof.
  unfold close. destruct (chans w !! c) as [ch|] eqn:Hch; [|left; eauto].
  destruct (ch_closed ch); [left; eauto|].
  right. eexists. split; [reflexivity|].
  unfold fired. simpl. now rewrite lookup_insert_eq.
Qed.

(** C2, as amended. [Stop] closes the stop channel with no guard of any
    kind. For every session, in every world (so whether or not [Run] has
    started or finished), two calls of [Stop] in a row end in a panic. When
    the stop channel is open, the first call returns and leaves it closed,
    and the second one is the call that panics, with "close of closed
    channel". *)
Theorem Stop_twice_panics (pf : PortForward) (w : World) :
  (exists msg w', (_ ← Stop pf; Stop pf) w = Panicked msg w')
  /\ forall ch,
       chans w !! stopCh pf = Some ch ->
       ch_closed ch = false ->
       exists w1,
         Stop pf w = Returned tt w1
         /\ fired (stopCh pf) w1 = true
         /\ Stop pf w1 = Panicked "close of closed channel" w1
         /\ (_ ← Stop pf; Stop pf) w = Panicked "close of closed channel" w1.
Proof.
  unfold Stop, mbind, M_bind, bind. split.
  - destruct (close_panics_or_fires (stopCh pf) w) as [[msg ->] | (w' & -> & Hfired)].
    + eauto.
    + rewrite (close_fired _ _ Hfired). eauto.
  - intros ch Hch Hopen. rewrite (close_open _ _ _ Hch Hopen).
    eexists. split; [reflexivity|].
    assert (fired (stopCh pf)
              (set_chans (<[stopCh pf := mkChan (ch_cap ch) true]> (chans w))
                 (next_chan w) w) = true) as Hfired.
    { unfold fired. simpl. now rewrite lookup_insert_eq. }
    rewrite (close_fired _ _ Hfired). auto.
Qed.

(** ** [Run] *)

Lemma Run_unfold (pf : PortForward) (w : World) :
  Run pf w =
  match round_tripper_for (env w) (config pf) with
  | Some err => Returned (Some err) w
  | None =>
      match forwarder_new (env w) (fw_ports (forwarder_of pf)) with
      | Some err => Returned (Some err) w
      | None => ForwardPorts (forwarder_of pf) w
      end
  end.
Proof.
  unfold Run, RunWith, mbind, M_bind, bind, spdy_RoundTripperFor.
  destruct (round_tripper_for (env w) (config pf)); [reflexivity|].
  cbv zeta. unfold portforward_New. cbn [fw_ports forwarder_of].
  destruct (forwarder_new (env w) _); reflexivity.
Qed.

Lemma ForwardPorts_unfold (fw : PortForwarder) (w : World) :
  ForwardPorts fw w =
  match upgrade (env w) (d_url (fw_dialer fw)) with
  | Some err => Returned (Some err) w
  | None =>
      match bind_all (env w) (fw_ports fw) with
      | Some err => Returned (Some err) w
      | None =>
          match close (fw_Ready fw) w with
          | Panicked msg w' => Panicked msg w'
          | Returned _ w1 =>
              match write_to (fw_out fw) (loop_out (env w)) w1 with
              | Panicked msg w' => Panicked msg w'
              | Returned _ w2 =>
                  match write_to (fw_errOut fw) (loop_errOut (env w)) w2 with
                  | Panicked msg w' => Panicked msg w'
                  | Returned _ w3 => Returned (tunnel_end (env w)) w3
                  end
              end
          end
      end
  end.
Proof.
  unfold ForwardPorts, mbind, M_bind, bind, get_env.
  destruct (upgrade (env w) _); [reflexivity|].
  destruct (bind_all (env w) _); [reflexivity|].
  destruct (close (fw_Ready fw) w); reflexivity.
Qed.

Lemma bind_all_single (e : Env) (p : string) :
  bind_all e [p] = None -> bind_local e p = None.
Proof.
  unfold bind_all. rewrite filter_cons.
  destruct (decide (bind_local e p = None)) as [Hp|Hp]; [auto|].
  rewrite filter_nil. discriminate.
Qed.

(** C6. If the round tripper cannot be built, or the forwarder cannot be
    set up, [Run] returns that very error at once and the world, the ready
    channel included, is as it was. Starting from a session whose ready
    channel has not fired, readiness has fired when [Run] is over only if
    both setup steps, the upgrade of the connection and the bind of the
    local port all succeeded. *)
Theorem Run_readiness (pf : PortForward) (w : World) :
  let ports := Sprintf "%d:%d" [ArgInt (localPort pf); ArgInt (remotePort pf)] in
  (forall err,
      round_tripper_for (env w) (config pf) = Some err ->
      Run pf w = Returned (Some err) w)
  /\ (forall err,
      round_tripper_for (env w) (config pf) = None ->
      forwarder_new (env w) [ports] = Some err ->
      Run pf w = Returned (Some err) w)
  /\ (fired (readyCh pf) w = false ->
      fired (readyCh pf) (final_world (Run pf w)) = true ->
      round_tripper_for (env w) (config pf) = None
      /\ forwarder_new (env w) [ports] = None
      /\ upgrade (env w) (url pf) = None
      /\ bind_local (env w) ports = None).
Proof.
  intros ports. rewrite Run_unfold. cbn [fw_ports forwarder_of]. fold ports.
  split; [|split].
  - intros err ->. reflexivity.
  - intros err -> ->. reflexivity.
  - intros Hbefore Hafter.
    destruct (round_tripper_for (env w) (config pf));
      [cbn in Hafter; congruence|].
    destruct (forwarder_new (env w) [ports]);
      [cbn in Hafter; congruence|].
    rewrite ForwardPorts_unfold in Hafter.
    cbn [fw_dialer fw_ports d_url forwarder_of] in Hafter. fold ports in Hafter.
    destruct (upgrade (env w) (url pf));
      [cbn in Hafter; congruence|].
    destruct (bind_all (env w) [ports]) eqn:Hbind;
      [cbn in Hafter; congruence|].
    repeat split. now apply bind_all_single.
Qed.

(** ** Sessions on the concrete cluster *)

Lemma demo_session_constructed :
  newPortForward demo_api "prod" "web-2" 7777 8080 false demo_world
  = Returned (Ok demo_session) demo_session_world.
Proof. apply newPortForward_nonzero. discriminate. Qed.

Lemma Stop_twice_panics_witness :
  exists w1,
    Stop demo_session demo_session_world = Returned tt w1
    /\ fired (stopCh demo_session) w1 = true
    /\ (_ ← Stop demo_session; Stop demo_session) demo_session_world
       = Panicked "close of closed channel" w1.
Proof.
  destruct (proj2 (Stop_twice_panics demo_session demo_session_world)
              (mkChan 1 false) eq_refl eq_refl)
    as (w1 & Hfirst & Hfired & _ & Htwice).
  exists w1. auto.
Defined.

(** C2 as stated fails: on a session fresh from its constructor, and again
    on one whose [Run] is over, the second [Stop] panics. *)
Lemma Stop_twice_counterexample :
  newPortForward demo_api "prod" "web-2" 7777 8080 false demo_world
  = Returned (Ok demo_session) demo_session_world
  /\ (exists w', (_ ← Stop demo_session; Stop demo_session) demo_session_world
                 = Panicked "close of closed channel" w')
  /\ (exists w', (_ ← Run demo_session; _ ← Stop demo_session; Stop demo_session)
                   demo_session_world
                 = Panicked "close of closed channel" w').
Proof.
  split; [exact demo_session_constructed|].
  split; eexists; vm_compute; reflexivity.
Qed.

Lemma Run_readiness_witness :
  Run demo_session rejecting_world
  = Returned (Some (foreign SpdyRoundTripper "unable to load client certificate"))
      rejecting_world
  /\ fired (readyCh demo_session) rejecting_world = false
  /\ upgrade (env demo_session_world) (url demo_session) = None
  /\ bind_local (env demo_session_world) "7777:8080" = None.
Proof.
  split; [|split].
  - apply (proj1 (Run_readiness demo_session rejecting_world)). reflexivity.
  - reflexivity.
  - destruct (proj2 (proj2 (Run_readiness demo_session demo_session_world))
                eq_refl eq_refl) as (_ & _ & Hup & Hbind).
    split; [exact Hup | exact Hbind].
Defined.

(** ** [emitLogs] *)



(** ** More on [NewPortForward] *)

(** What the loop returns, when it is not the initial value, is the name of
    the first matching pod. *)
Lemma selectPodName_inv (items : list Pod) (deployName : string) :
  selectPodName items deployName "" <> "" ->
  exists before pod after,
    items = before ++ pod :: after
    /\ Forall (fun p => ~ matches deployName p) before
    /\ matches deployName pod
    /\ selectPodName items deployName "" = Name pod.
Proof.
  induction items as [|p items IH]; simpl; [congruence|].
  destruct (String.eqb (Phase p) PodRunning) eqn:Hphase.
  - destruct (HasPrefix (Name p) deployName) eqn:Hname.
    + intros _. exists [], p, items.
      split; [reflexivity|]. split; [constructor|]. split; [|reflexivity].
      split; [now apply String.eqb_eq | now apply HasPrefix_spec].
    + intros Hsel. destruct (IH Hsel) as (before & pod & after & -> & Hb & Hm & Heq).
      exists (p :: before), pod, after.
      split; [reflexivity|]. split; [|split; assumption].
      constructor; [|assumption].
      intros [_ Hpre]. apply HasPrefix_spec in Hpre. congruence.
  - intros Hsel. destruct (IH Hsel) as (before & pod & after & -> & Hb & Hm & Heq).
    exists (p :: before), pod, after.
    split; [reflexivity|]. split; [|split; assumption].
    constructor; [|assumption].
    intros [Hrun _]. apply String.eqb_eq in Hrun. congruence.
Qed.

(** A session that [newPortForward] returns, and the world it leaves. *)
Lemma newPortForward_ok_inv (k8sAPI : KubernetesAPI) (namespace podName : string)
    (requested remotePort : Z) (emitLogs : bool) (w w' : World) (pf : PortForward) :
  newPortForward k8sAPI namespace podName requested remotePort emitLogs w
  = Returned (Ok pf) w' ->
  exists port w0,
    pf = session_in k8sAPI namespace podName port remotePort emitLogs w0
    /\ w' = with_session_chans w0
    /\ chans w0 = chans w /\ next_chan w0 = next_chan w
    /\ (requested <> 0 -> port = requested /\ w0 = w)
    /\ (requested = 0 -> getEphemeralPort w = Returned (Ok port) w0).
Proof.
  destruct (Z.eq_dec requested 0) as [-> | Hnz].
  - rewrite newPortForward_zero.
    pose proof (getEphemeralPort_unfold w) as Hunfold. cbv zeta in Hunfold.
    destruct (getEphemeralPort w) as [[port|err] w0|msg w0] eqn:Hrun;
      intros Heq; try discriminate Heq.
    injection Heq as <- <-. exists port, w0.
    repeat split; try congruence.
    + destruct (os_listen (env w) (listen_calls w)); injection Hunfold as _ ->; reflexivity.
    + destruct (os_listen (env w) (listen_calls w)); injection Hunfold as _ ->; reflexivity.
  - rewrite newPortForward_nonzero by assumption. intros Heq.
    injection Heq as <- <-. exists requested, w. repeat split; congruence.
Qed.

(** An error that [newPortForward] returns is the allocator's. *)
Lemma newPortForward_err_inv (k8sAPI : KubernetesAPI) (namespace podName : string)
    (requested remotePort : Z) (emitLogs : bool) (w w' : World) (err : error) :
  newPortForward k8sAPI namespace podName requested remotePort emitLogs w
  = Returned (Err err) w' ->
  requested = 0 /\ getEphemeralPort w = Returned (Err err) w'.
Proof.
  destruct (Z.eq_dec requested 0) as [-> | Hnz].
  - rewrite newPortForward_zero.
    destruct (getEphemeralPort w) as [[port|e] w0|msg w0];
      intros Heq; try discriminate Heq.
    injection Heq as <- <-. auto.
  - rewrite newPortForward_nonzero by assumption. discriminate.
Qed.

(** The three ways in which [NewPortForward] fails, and what each leaves
    behind: the error of the list call, handed back as it is; the
    "no running pods found" error; or, only when the local port is 0, the
    allocator's error. No channel is made on any of them. *)
Theorem NewPortForward_failure_cases (k8sAPI : KubernetesAPI)
    (namespace deployName : string) (requested remotePort : Z) (emitLogs : bool)
    (w w' : World) (err : error) :
  NewPortForward k8sAPI namespace deployName requested remotePort emitLogs w
  = Returned (Err err) w' ->
  (PodsList k8sAPI namespace 30 = Err err /\ w' = w)
  \/ (exists items,
         PodsList k8sAPI namespace 30 = Ok items
         /\ selectPodName items deployName "" = ""
         /\ err = errorString ("no running pods found for " +:+ deployName)
         /\ w' = w)
  \/ (exists items,
         PodsList k8sAPI namespace 30 = Ok items
         /\ requested = 0
         /\ getEphemeralPort w = Returned (Err err) w'
         /\ chans w' = chans w /\ next_chan w' = next_chan w).
Proof.
  unfold NewPortForward.
  destruct (PodsList k8sAPI namespace 30) as [items|e].
  - cbv zeta.
    destruct (String.eqb (selectPodName items deployName "") "") eqn:Hsel.
    + intros Heq. injection Heq as <- <-. right. left.
      exists items. apply String.eqb_eq in Hsel. unfold Errorf.
      rewrite Sprintf_no_running_pods. auto.
    + intros Heq. apply newPortForward_err_inv in Heq as [-> Halloc].
      right. right. exists items. repeat split; try assumption.
      * rewrite getEphemeralPort_unfold in Halloc. cbv zeta in Halloc.
        destruct (os_listen (env w) (listen_calls w)); injection Halloc as _ <-; reflexivity.
      * rewrite getEphemeralPort_unfold in Halloc. cbv zeta in Halloc.
        destruct (os_listen (env w) (listen_calls w)); injection Halloc as _ <-; reflexivity.
  - intros Heq. injection Heq as <- <-. left. auto.
Qed.

(** Every session [NewPortForward] returns is for a pod of the list: the
    first one in list order that is [Running] and whose name starts with
    [deployName], and that name is not empty. Its remote port and flag are
    the caller's. When the namespace and the pod's name are valid path
    segments, its request URL is the [portforward] subresource of that pod
    in that namespace; when the pod's name is not one (it contains a slash
    or a percent sign, or is "." or ".."), the URL has neither the name nor
    the subresource. *)
Theorem NewPortForward_sound (k8sAPI : KubernetesAPI)
    (namespace deployName : string) (requested remote : Z) (logs : bool)
    (w w' : World) (pf : PortForward) :
  NewPortForward k8sAPI namespace deployName requested remote logs w
  = Returned (Ok pf) w' ->
  exists before pod after,
    PodsList k8sAPI namespace 30 = Ok (before ++ pod :: after)
    /\ Forall (fun p => ~ matches deployName p) before
    /\ matches deployName pod
    /\ Name pod <> ""
    /\ method pf = "POST"
    /\ remotePort pf = remote
    /\ emitLogs pf = logs
    /\ (IsValidPathSegmentName namespace = [] ->
        IsValidPathSegmentName (Name pod) = [] ->
        url pf = mkURL (Host (APIConfig k8sAPI)) "pods" namespace (Name pod) "portforward")
    /\ (IsValidPathSegmentName (Name pod) <> [] ->
        url_name (url pf) = "" /\ url_subresource (url pf) = "").
Proof.
  unfold NewPortForward.
  destruct (PodsList k8sAPI namespace 30) as [items|e]; [|discriminate].
  cbv zeta.
  destruct (String.eqb (selectPodName items deployName "") "") eqn:Hsel; [discriminate|].
  apply String.eqb_neq in Hsel.
  destruct (selectPodName_inv items deployName Hsel)
    as (before & pod & after & -> & Hbefore & Hpod & Heq).
  rewrite Heq in *. intros Hrun.
  apply newPortForward_ok_inv in Hrun as (port & w0 & -> & _).
  exists before, pod, after. cbn [method url remotePort emitLogs session_in].
  split; [reflexivity|]. split; [assumption|]. split; [assumption|].
  split; [assumption|]. do 3 (split; [reflexivity|]). split.
  - intros Hns Hname. now apply session_url_valid.
  - intros Hname.
    destruct (IsValidPathSegmentName namespace) eqn:Hns.
    + rewrite session_url_bad_name by auto. auto.
    + rewrite session_url_bad_namespace by (rewrite Hns; discriminate). auto.
Qed.

Lemma NewPortForward_sound_witness :
  exists pf w',
    NewPortForward demo_api "prod" "web" 7777 8080 true demo_world = Returned (Ok pf) w'
    /\ remotePort pf = 8080
    /\ (exists pod, In pod demo_pods /\ matches "web" pod /\ Name pod <> "").
Proof.
  exists (session_in demo_api "prod" "web-2" 7777 8080 true demo_world),
    (with_session_chans demo_world).
  split; [reflexivity|].
  destruct (NewPortForward_sound demo_api "prod" "web" 7777 8080 true
              demo_world (with_session_chans demo_world)
              (session_in demo_api "prod" "web-2" 7777 8080 true demo_world) eq_refl)
    as (before & pod & after & Hlist & _ & Hpod & Hname & _ & Hremote & _).
  split; [exact Hremote|].
  exists pod. repeat split; try apply Hpod; try exact Hname.
  injection Hlist as ->. apply in_or_app. right. now left.
Defined.

Lemma NewPortForward_failure_cases_witness :
  PodsList demo_api "prod" 30 = Ok demo_pods
  /\ selectPodName demo_pods "ghost" "" = ""
  /\ NewPortForward demo_api "prod" "ghost" 0 8080 true demo_world
     = Returned (Err (errorString "no running pods found for ghost")) demo_world.
Proof.
  destruct (NewPortForward_failure_cases demo_api "prod" "ghost" 0 8080 true
              demo_world demo_world
              (errorString "no running pods found for ghost") eq_refl)
    as [[Hlist _] | [(items & Hlist & Hsel & _) | (items & _ & _ & Halloc & _)]].
  - discriminate Hlist.
  - injection Hlist as <-. split; [reflexivity|]. split; [exact Hsel | reflexivity].
  - rewrite getEphemeralPort_unfold in Halloc. discriminate Halloc.
Defined.

(** With the empty [deployName] every name has the prefix, so the first
    [Running] pod of the list decides alone: it is selected when its name
    is not empty, and otherwise the call fails, whatever pods follow. *)
Theorem NewPortForward_empty_prefix (k8sAPI : KubernetesAPI) (namespace : string)
    (requested remote : Z) (logs : bool) (before after : list Pod) (pod : Pod) :
  PodsList k8sAPI namespace 30 = Ok (before ++ pod :: after) ->
  Forall (fun p => Phase p <> PodRunning) before ->
  Phase pod = PodRunning ->
  (Name pod <> "" ->
   NewPortForward k8sAPI namespace "" requested remote logs
   = newPortForward k8sAPI namespace (Name pod) requested remote logs)
  /\ (Name pod = "" ->
      forall w,
        NewPortForward k8sAPI namespace "" requested remote logs w
        = Returned (Err (errorString "no running pods found for ")) w).
Proof.
  intros Hlist Hbefore Hphase.
  assert (selectPodName (before ++ pod :: after) "" "" = Name pod) as Hsel.
  { apply selectPodName_first.
    - eapply Forall_impl; [exact Hbefore|]. intros p Hp [Hrun _]. contradiction.
    - split; [assumption | now exists (Name pod)]. }
  unfold NewPortForward. rewrite Hlist. cbv zeta. rewrite Hsel. split.
  - intros Hname. apply String.eqb_neq in Hname. now rewrite Hname.
  - intros -> w. reflexivity.
Qed.

Lemma NewPortForward_empty_prefix_witness :
  NewPortForward demo_api "prod" "" 7777 8080 true
  = newPortForward demo_api "prod" "api-1" 7777 8080 true.
Proof.
  apply (proj1 (NewPortForward_empty_prefix demo_api "prod" 7777 8080 true
                  [mkPod "web-1" "prod" "Pending" []]
                  [mkPod "web-2" "prod" "Running" []; mkPod "web-3" "prod" "Running" []]
                  (mkPod "api-1" "prod" "Running" [])
                  eq_refl ltac:(repeat constructor; discriminate) eq_refl)).
  discriminate.
Defined.

(** ** The shape of a session *)

Lemma lookup_session_chans (w : World) :
  chans (with_session_chans w) !! next_chan w = Some (mkChan 1 false)
  /\ chans (with_session_chans w) !! S (next_chan w) = Some (mkChan 0 false)
  /\ forall c, c <> next_chan w -> c <> S (next_chan w) ->
       chans (with_session_chans w) !! c = chans w !! c.
Proof.
  unfold with_session_chans. cbn [chans set_chans]. repeat split.
  - rewrite lookup_insert_ne by lia. apply lookup_insert_eq.
  - apply lookup_insert_eq.
  - intros c H1 H2. now rewrite !lookup_insert_ne by congruence.
Qed.

(** Every session [newPortForward] returns has method POST, the caller's
    remote port and flag and the client's configuration, and owns two
    channels made for it: a stop channel of capacity 1 and an unbuffered
    ready channel, distinct, both open, while every other channel of the
    world is as it was. Its URL is below the client's base and in the
    resource "pods". With a valid namespace and a valid, non-empty pod name
    it is the [portforward] subresource of that pod in that namespace; with
    an empty or invalid pod name, or an invalid namespace, it has neither
    the name nor the subresource, and with an invalid namespace no
    namespace either: the constructor does not fail on such names. *)
Theorem newPortForward_session (k8sAPI : KubernetesAPI) (namespace podName : string)
    (requested remote : Z) (logs : bool) (w w' : World) (pf : PortForward) :
  newPortForward k8sAPI namespace podName requested remote logs w
  = Returned (Ok pf) w' ->
  method pf = "POST"
  /\ remotePort pf = remote
  /\ emitLogs pf = logs
  /\ config pf = APIConfig k8sAPI
  /\ stopCh pf <> readyCh pf
  /\ chans w' !! stopCh pf = Some (mkChan 1 false)
  /\ chans w' !! readyCh pf = Some (mkChan 0 false)
  /\ (forall c, c <> stopCh pf -> c <> readyCh pf -> chans w' !! c = chans w !! c)
  /\ url_host (url pf) = Host (APIConfig k8sAPI)
  /\ url_resource (url pf) = "pods"
  /\ (IsValidPathSegmentName namespace = [] ->
      podName <> "" ->
      IsValidPathSegmentName podName = [] ->
      url pf = mkURL (Host (APIConfig k8sAPI)) "pods" namespace podName "portforward")
  /\ (IsValidPathSegmentName namespace = [] ->
      podName = "" \/ IsValidPathSegmentName podName <> [] ->
      url pf = mkURL (Host (APIConfig k8sAPI)) "pods" namespace "" "")
  /\ (IsValidPathSegmentName namespace <> [] ->
      url pf = mkURL (Host (APIConfig k8sAPI)) "pods" "" "" "").
Proof.
  intros Hrun.
  apply newPortForward_ok_inv in Hrun as (port & w0 & -> & -> & Hchans & Hnext & _).
  destruct (lookup_session_chans w0) as (Hstop & Hready & Hother).
  cbn [method url remotePort emitLogs config stopCh readyCh session_in].
  do 4 (split; [reflexivity|]). split; [lia|].
  split; [assumption|]. split; [assumption|]. split.
  { intros c H1 H2. rewrite Hother by assumption. now rewrite Hchans. }
  assert (url_host (session_url k8sAPI namespace podName) = Host (APIConfig k8sAPI)
          /\ url_resource (session_url k8sAPI namespace podName) = "pods")
    as [Hhost Hres].
  { destruct (IsValidPathSegmentName namespace) eqn:Hns.
    - destruct (string_dec podName "") as [Hempty | Hne].
      + rewrite session_url_bad_name by auto. auto.
      + destruct (IsValidPathSegmentName podName) eqn:Hname.
        * rewrite session_url_valid by assumption. auto.
        * rewrite session_url_bad_name; [auto | assumption |].
          right. rewrite Hname. discriminate.
    - rewrite session_url_bad_namespace by (rewrite Hns; discriminate). auto. }
  split; [exact Hhost|]. split; [exact Hres|]. split; [|split].
  - intros. now apply session_url_valid.
  - intros. now apply session_url_bad_name.
  - intros. now apply session_url_bad_namespace.
Qed.

Lemma newPortForward_session_witness :
  stopCh demo_session <> readyCh demo_session
  /\ chans demo_session_world !! stopCh demo_session = Some (mkChan 1 false)
  /\ chans demo_session_world !! readyCh demo_session = Some (mkChan 0 false)
  /\ url demo_session
     = mkURL "https://cluster.example" "pods" "prod" "web-2" "portforward".
Proof.
  destruct (newPortForward_session demo_api "prod" "web-2" 7777 8080 false
              demo_world demo_session_world demo_session eq_refl)
    as (_ & _ & _ & _ & Hne & Hstop & Hready & _ & _ & _ & Hurl & _).
  split; [exact Hne|]. split; [exact Hstop|]. split; [exact Hready|].
  apply Hurl; [reflexivity | discriminate | reflexivity].
Defined.

(** ** Sessions do not share channels *)

Lemma close_frame (c : nat) (w : World) (ch : Chan) :
  chans w !! c = Some ch ->
  ch_closed ch = false ->
  exists w',
    close c w = Returned tt w'
    /\ chans w' !! c = Some (mkChan (ch_cap ch) true)
    /\ forall c', c' <> c -> chans w' !! c' = chans w !! c'.
Proof.
  intros Hch Hopen. rewrite (close_open _ _ _ Hch Hopen).
  eexists. split; [reflexivity|]. cbn [chans set_chans]. split.
  - apply lookup_insert_eq.
  - intros c' Hc. now rewrite lookup_insert_ne by congruence.
Qed.

(** [Stop] on a session whose stop channel is open closes that channel and
    changes nothing else: every other channel, the ready channel among
    them, the listeners and the standard streams are as they were. *)
Theorem Stop_changes_only_stop_channel (pf : PortForward) (w : World) (ch : Chan) :
  chans w !! stopCh pf = Some ch ->
  ch_closed ch = false ->
  exists w',
    Stop pf w = Returned tt w'
    /\ chans w' !! stopCh pf = Some (mkChan (ch_cap ch) true)
    /\ (forall c, c <> stopCh pf -> chans w' !! c = chans w !! c)
    /\ env w' = env w
    /\ listen_calls w' = listen_calls w
    /\ open_listeners w' = open_listeners w
    /\ next_chan w' = next_chan w
    /\ stdout w' = stdout w /\ stderr w' = stderr w.
Proof.
  intros Hch Hopen. unfold Stop. rewrite (close_open _ _ _ Hch Hopen).
  eexists. split; [reflexivity|]. cbn [chans set_chans]. split; [|split].
  - apply lookup_insert_eq.
  - intros c Hc. now rewrite lookup_insert_ne by congruence.
  - repeat split.
Qed.

Lemma Stop_changes_only_stop_channel_witness :
  exists w',
    Stop demo_session demo_session_world = Returned tt w'
    /\ chans w' !! readyCh demo_session = Some (mkChan 0 false).
Proof.
  destruct (Stop_changes_only_stop_channel demo_session demo_session_world
              (mkChan 1 false) eq_refl eq_refl)
    as (w' & Hrun & _ & Hother & _).
  exists w'. split; [exact Hrun|].
  rewrite Hother by discriminate. reflexivity.
Defined.

(** Two sessions built one after the other, for whatever pods and ports,
    have four different channels. Stopping the first one neither stops nor
    readies the second, which can still be stopped afterwards. *)
Theorem sessions_are_independent
    (api1 api2 : KubernetesAPI) (ns1 ns2 name1 name2 : string)
    (local1 local2 remote1 remote2 : Z) (logs1 logs2 : bool)
    (w w1 w2 : World) (pf1 pf2 : PortForward) :
  newPortForward api1 ns1 name1 local1 remote1 logs1 w = Returned (Ok pf1) w1 ->
  newPortForward api2 ns2 name2 local2 remote2 logs2 w1 = Returned (Ok pf2) w2 ->
  stopCh pf1 <> stopCh pf2 /\ stopCh pf1 <> readyCh pf2
  /\ readyCh pf1 <> stopCh pf2 /\ readyCh pf1 <> readyCh pf2
  /\ exists w3,
       Stop pf1 w2 = Returned tt w3
       /\ fired (stopCh pf1) w3 = true
       /\ fired (stopCh pf2) w3 = false
       /\ fired (readyCh pf2) w3 = false
       /\ fired (readyCh pf1) w3 = false
       /\ exists w4, Stop pf2 w3 = Returned tt w4.
Proof.
  intros Hfirst Hsecond.
  apply newPortForward_ok_inv in Hfirst
    as (port1 & v1 & -> & -> & Hchans1 & Hnext1 & _).
  apply newPortForward_ok_inv in Hsecond
    as (port2 & v2 & -> & -> & Hchans2 & Hnext2 & _).
  cbn [stopCh readyCh session_in].
  assert (next_chan v2 = S (S (next_chan v1))) as Hn by (rewrite Hnext2; reflexivity).
  destruct (lookup_session_chans v1) as (Hs1 & Hr1 & _).
  destruct (lookup_session_chans v2) as (Hs2 & Hr2 & Ho2).
  assert (chans (with_session_chans v2) !! next_chan v1 = Some (mkChan 1 false)) as Hstop1.
  { rewrite Ho2 by lia. now rewrite Hchans2. }
  assert (chans (with_session_chans v2) !! S (next_chan v1) = Some (mkChan 0 false))
    as Hready1.
  { rewrite Ho2 by lia. now rewrite Hchans2. }
  repeat (split; [lia|]).
  destruct (close_frame (next_chan v1) (with_session_chans v2) (mkChan 1 false)
              Hstop1 eq_refl) as (w3 & Hstop & Hclosed & Hother).
  exists w3. unfold Stop. cbn [stopCh session_in]. split; [exact Hstop|].
  unfold fired. rewrite Hclosed, !Hother by lia. rewrite Hs2, Hr2, Hready1.
  repeat split.
  destruct (close_frame (next_chan v2) w3 (mkChan 1 false)) as (w4 & Hstop2 & _).
  - rewrite Hother by lia. exact Hs2.
  - reflexivity.
  - now exists w4.
Qed.

Lemma sessions_are_independent_witness :
  exists pf1 w1 pf2 w2 w3,
    newPortForward demo_api "prod" "web-2" 7777 8080 false demo_world = Returned (Ok pf1) w1
    /\ newPortForward demo_api "prod" "web-3" 0 9090 true w1 = Returned (Ok pf2) w2
    /\ Stop pf1 w2 = Returned tt w3
    /\ fired (stopCh pf2) w3 = false.
Proof.
  set (pf1 := demo_session). set (w1 := demo_session_world).
  set (pf2 := session_in demo_api "prod" "web-3" 40000 9090 true
                (ln_Close (mkListener 0 (TCPAddr 40000))
                   (set_listeners 1 [0%nat] w1))).
  set (w2 := with_session_chans
               (ln_Close (mkListener 0 (TCPAddr 40000)) (set_listeners 1 [0%nat] w1))).
  assert (H1 : newPortForward demo_api "prod" "web-2" 7777 8080 false demo_world
               = Returned (Ok pf1) w1) by exact demo_session_constructed.
  assert (H2 : newPortForward demo_api "prod" "web-3" 0 9090 true w1
               = Returned (Ok pf2) w2).
  { rewrite newPortForward_zero, getEphemeralPort_unfold. reflexivity. }
  destruct (sessions_are_independent demo_api demo_api "prod" "prod" "web-2" "web-3"
              7777 0 8080 9090 false true demo_world w1 w2 pf1 pf2 H1 H2)
    as (_ & _ & _ & _ & w3 & Hstop & _ & Hquiet & _).
  exists pf1, w1, pf2, w2, w3. auto.
Defined.

(** ** No listener outlives a constructor *)

Lemma getEphemeralPort_frame (w : World) :
  let w' := final_world (getEphemeralPort w) in
  (forall i, i ∈ open_listeners w' -> i ∈ open_listeners w)
  /\ listen_calls w' = S (listen_calls w)
  /\ env w' = env w /\ chans w' = chans w /\ next_chan w' = next_chan w
  /\ stdout w' = stdout w /\ stderr w' = stderr w.
Proof.
  rewrite getEphemeralPort_unfold. cbv zeta.
  destruct (os_listen (env w) (listen_calls w)) as [addr|msg];
    cbn [final_world]; (split; [|repeat split]).
  - intros i Hi. unfold ln_Close in Hi.
    cbn [open_listeners set_listeners ln_id] in Hi.
    apply list_elem_of_filter in Hi as [Hne Hi].
    apply elem_of_cons in Hi as [Hi|Hi]; [contradiction | assumption].
  - intros i Hi. exact Hi.
Qed.

Lemma newPortForward_frame (k8sAPI : KubernetesAPI) (namespace podName : string)
    (requested remote : Z) (logs : bool) (w : World) :
  let w' := final_world (newPortForward k8sAPI namespace podName requested remote logs w) in
  (forall i, i ∈ open_listeners w' -> i ∈ open_listeners w)
  /\ listen_calls w' = (if requested =? 0 then S (listen_calls w) else listen_calls w)
  /\ env w' = env w /\ stdout w' = stdout w /\ stderr w' = stderr w.
Proof.
  cbv zeta. destruct (Z.eqb_spec requested 0) as [-> | Hnz].
  - rewrite newPortForward_zero.
    pose proof (getEphemeralPort_frame w) as Hframe. cbv zeta in Hframe.
    destruct (getEphemeralPort w) as [[port|err] w0|msg w0];
      cbn [final_world] in *; cbn; tauto.
  - rewrite newPortForward_nonzero by assumption. cbn. tauto.
Qed.

(** [NewPortForward] leaves no listener behind: whatever it returns, every
    listener open afterwards was open before. It calls [net.Listen] exactly
    once when the list call succeeded, the loop selected a pod and the local
    port is 0, and not at all in every other case; and it writes nothing to
    the standard streams. *)
Theorem NewPortForward_leaves_no_listener (k8sAPI : KubernetesAPI)
    (namespace deployName : string) (requested remote : Z) (logs : bool) (w : World) :
  let w' :=
    final_world (NewPortForward k8sAPI namespace deployName requested remote logs w) in
  (forall i, i ∈ open_listeners w' -> i ∈ open_listeners w)
  /\ listen_calls w'
     = match PodsList k8sAPI namespace 30 with
       | Ok items =>
           if String.eqb (selectPodName items deployName "") "" then listen_calls w
           else if requested =? 0 then S (listen_calls w)
           else listen_calls w
       | Err _ => listen_calls w
       end
  /\ stdout w' = stdout w /\ stderr w' = stderr w.
Proof.
  cbv zeta. unfold NewPortForward.
  destruct (PodsList k8sAPI namespace 30) as [items|err]; [|cbn; tauto].
  cbv zeta. destruct (String.eqb (selectPodName items deployName "") ""); [cbn; tauto|].
  destruct (newPortForward_frame k8sAPI namespace (selectPodName items deployName "")
              requested remote logs w) as (Hopen & Hcalls & _ & Hout & Herr).
  repeat split; assumption.
Qed.

Lemma NewPortForward_leaves_no_listener_witness :
  open_listeners
    (final_world (NewPortForward demo_api "prod" "web" 0 8080 true demo_world)) = []
  /\ listen_calls
       (final_world (NewPortForward demo_api "prod" "web" 0 8080 true demo_world)) = 1%nat
  /\ listen_calls
       (final_world (NewPortForward demo_api "prod" "ghost" 0 8080 true demo_world)) = 0%nat
  /\ listen_calls
       (final_world (NewPortForward demo_api "prod" "web" 7777 8080 true demo_world)) = 0%nat.
Proof.
  destruct (NewPortForward_leaves_no_listener demo_api "prod" "web" 0 8080 true demo_world)
    as (Hopen & Hcalls & _).
  destruct (NewPortForward_leaves_no_listener demo_api "prod" "ghost" 0 8080 true demo_world)
    as (_ & Hghost & _).
  destruct (NewPortForward_leaves_no_listener demo_api "prod" "web" 7777 8080 true demo_world)
    as (_ & Hfixed & _).
  cbv zeta in Hopen, Hcalls, Hghost, Hfixed.
  split; [|split; [exact Hcalls | split; [exact Hghost | exact Hfixed]]].
  destruct (open_listeners
              (final_world (NewPortForward demo_api "prod" "web" 0 8080 true demo_world)))
    as [|i rest]; [reflexivity|].
  specialize (Hopen i ltac:(apply elem_of_cons; now left)).
  cbn in Hopen. apply elem_of_nil in Hopen. contradiction.
Defined.

(** ** More on the proxy-metrics variant *)

Section ProxyMetricsMore.

Variable ProxyContainerName : string.
Variable ProxyAdminPortName : string.

(** [NewProxyMetricsForward] looks at a pod's name, namespace and phase,
    and at nothing of its containers but the container port of the first
    port named [ProxyAdminPortName] of the first container named
    [ProxyContainerName]: two pods that agree on these get the same result,
    whatever other containers and ports they declare, before or after. *)
Theorem NewProxyMetricsForward_first_sidecar_wins (k8sAPI : KubernetesAPI)
    (pod1 pod2 : Pod) (logs : bool)
    (before1 after1 before2 after2 : list Container) (c1 c2 : Container)
    (pbefore1 pafter1 pbefore2 pafter2 : list ContainerPort) (p1 p2 : ContainerPort) :
  Name pod1 = Name pod2 ->
  Namespace pod1 = Namespace pod2 ->
  Phase pod1 = Phase pod2 ->
  Containers pod1 = before1 ++ c1 :: after1 ->
  Containers pod2 = before2 ++ c2 :: after2 ->
  Forall (fun c => ContainerName c <> ProxyContainerName) before1 ->
  Forall (fun c => ContainerName c <> ProxyContainerName) before2 ->
  ContainerName c1 = ProxyContainerName ->
  ContainerName c2 = ProxyContainerName ->
  Ports c1 = pbefore1 ++ p1 :: pafter1 ->
  Ports c2 = pbefore2 ++ p2 :: pafter2 ->
  Forall (fun p => PortName p <> ProxyAdminPortName) pbefore1 ->
  Forall (fun p => PortName p <> ProxyAdminPortName) pbefore2 ->
  PortName p1 = ProxyAdminPortName ->
  PortName p2 = ProxyAdminPortName ->
  ContainerPortNumber p1 = ContainerPortNumber p2 ->
  forall w,
    NewProxyMetricsForward ProxyContainerName ProxyAdminPortName k8sAPI pod1 logs w
    = NewProxyMetricsForward ProxyContainerName ProxyAdminPortName k8sAPI pod2 logs w.
Proof.
  intros Hname Hns Hphase Hcs1 Hcs2 Hb1 Hb2 Hc1 Hc2 Hps1 Hps2 Hpb1 Hpb2 Hp1 Hp2 Hnum w.
  destruct (String.eqb_spec (Phase pod1) PodRunning) as [Hrun|Hrun].
  - rewrite (found_forwards ProxyContainerName ProxyAdminPortName k8sAPI pod1 logs
               before1 after1 c1 pbefore1 pafter1 p1) by assumption.
    rewrite (found_forwards ProxyContainerName ProxyAdminPortName k8sAPI pod2 logs
               before2 after2 c2 pbefore2 pafter2 p2) by congruence.
    now rewrite Hname, Hns, Hnum.
  - rewrite !not_running_fails by congruence. now rewrite Hname.
Qed.

(** [NewProxyMetricsForward] leaves no listener behind, writes nothing to
    the standard streams, and listens at most once: not at all unless the
    pod is [Running] and both lookups found what they were looking for. *)
Theorem NewProxyMetricsForward_leaves_no_listener (k8sAPI : KubernetesAPI)
    (pod : Pod) (logs : bool) (w : World) :
  let w' :=
    final_world
      (NewProxyMetricsForward ProxyContainerName ProxyAdminPortName k8sAPI pod logs w) in
  let container := findContainer ProxyContainerName (Containers pod) zeroContainer in
  let port := findPort ProxyAdminPortName (Ports container) zeroContainerPort in
  (forall i, i ∈ open_listeners w' -> i ∈ open_listeners w)
  /\ stdout w' = stdout w /\ stderr w' = stderr w
  /\ (w' = w
      \/ (listen_calls w' = S (listen_calls w)
          /\ Phase pod = PodRunning
          /\ ContainerName container = ProxyContainerName
          /\ PortName port = ProxyAdminPortName)).
Proof.
  cbv zeta. unfold NewProxyMetricsForward.
  destruct (String.eqb_spec (Phase pod) PodRunning) as [Hrun|Hrun];
    cbn [negb]; [|cbn; tauto].
  destruct (String.eqb_spec
              (ContainerName (findContainer ProxyContainerName (Containers pod) zeroContainer))
              ProxyContainerName) as [Hc|Hc]; cbn [negb]; [|cbn; tauto].
  destruct (String.eqb_spec
              (PortName (findPort ProxyAdminPortName
                           (Ports (findContainer ProxyContainerName (Containers pod)
                                     zeroContainer)) zeroContainerPort))
              ProxyAdminPortName) as [Hp|Hp]; cbn [negb]; [|cbn; tauto].
  match goal with
  | |- context [newPortForward ?a ?n ?p 0 ?r ?l w] =>
      destruct (newPortForward_frame a n p 0 r l w) as (Hopen & Hcalls & _ & Hout & Herr)
  end.
  cbn [Z.eqb] in Hcalls. repeat split; try assumption.
  right. repeat split; assumption.
Qed.

End ProxyMetricsMore.

Lemma NewProxyMetricsForward_first_sidecar_wins_witness :
  NewProxyMetricsForward "linkerd-proxy" "linkerd-admin" demo_api
    (meshed_pod "Running") false demo_world
  = NewProxyMetricsForward "linkerd-proxy" "linkerd-admin" demo_api
      (mkPod "web-7f8" "prod" "Running"
         [mkContainer "linkerd-proxy" [mkContainerPort "linkerd-admin" 4191];
          mkContainer "linkerd-proxy" [mkContainerPort "linkerd-admin" 1]])
      false demo_world.
Proof.
  apply (NewProxyMetricsForward_first_sidecar_wins "linkerd-proxy" "linkerd-admin"
           demo_api (meshed_pod "Running")
           (mkPod "web-7f8" "prod" "Running"
              [mkContainer "linkerd-proxy" [mkContainerPort "linkerd-admin" 4191];
               mkContainer "linkerd-proxy" [mkContainerPort "linkerd-admin" 1]])
           false
           [app_container] [] []
           [mkContainer "linkerd-proxy" [mkContainerPort "linkerd-admin" 1]]
           sidecar (mkContainer "linkerd-proxy" [mkContainerPort "linkerd-admin" 4191])
           [mkContainerPort "linkerd-proxy" 4143] [] [] []
           (mkContainerPort "linkerd-admin" 4191) (mkContainerPort "linkerd-admin" 4191));
    try reflexivity; repeat constructor; discriminate.
Defined.

Lemma NewProxyMetricsForward_leaves_no_listener_witness :
  final_world
    (NewProxyMetricsForward "linkerd-proxy" "linkerd-admin" demo_api
       (unmeshed_pod "Running") false demo_world) = demo_world
  \/ listen_calls
       (final_world
          (NewProxyMetricsForward "linkerd-proxy" "linkerd-admin" demo_api
             (unmeshed_pod "Running") false demo_world)) = 1%nat.
Proof.
  destruct (NewProxyMetricsForward_leaves_no_listener "linkerd-proxy" "linkerd-admin"
              demo_api (unmeshed_pod "Running") false demo_world)
    as (_ & _ & _ & [Hsame | (Hcalls & _)]).
  - left. exact Hsame.
  - right. exact Hcalls.
Defined.

(** ** Numerals do not run into what follows them *)

Lemma numeralChar_digitChar (d : Z) : 0 <= d < 10 -> numeralChar (digitChar d) = true.
Proof.
  intros Hd. unfold numeralChar. now rewrite digitValue_digitChar.
Qed.

Lemma utoa_numeral (fuel : nat) :
  forall (u : Z) (buf : string),
    0 <= u -> numeral buf = true -> numeral (utoa fuel u buf) = true.
Proof.
  induction fuel as [|fuel IH]; intros u buf Hu Hbuf; [exact Hbuf|].
  cbn [utoa]. destruct (u <? 10) eqn:Hlt.
  - apply Z.ltb_lt in Hlt. cbn [numeral].
    rewrite numeralChar_digitChar by lia. exact Hbuf.
  - apply IH; [apply Z.div_pos; lia|].
    cbn [numeral]. rewrite numeralChar_digitChar; [exact Hbuf|].
    apply Z.mod_pos_bound. lia.
Qed.

Lemma fmt_d_numeral (z : Z) : numeral (fmt_d z) = true.
Proof.
  unfold fmt_d. cbv zeta.
  pose proof (utoa_numeral (S (Z.to_nat (Z.log2 (Z.abs z)))) (Z.abs z) ""
                (Z.abs_nonneg z) eq_refl) as Hdigits.
  destruct (z <? 0); [|exact Hdigits].
  cbn [numeral]. rewrite Hdigits. reflexivity.
Qed.

Lemma fmt_d_inj (a b : Z) : fmt_d a = fmt_d b -> a = b.
Proof.
  intros Heq. pose proof (atoi_fmt_d a) as Ha. rewrite Heq, atoi_fmt_d in Ha.
  congruence.
Qed.

(** Two numerals, each followed by a character no numeral contains, are
    told apart by that character. *)
Lemma numeral_split_unique (sep : ascii) (a c b d : string) :
  numeralChar sep = false ->
  numeral a = true -> numeral c = true ->
  a +:+ String sep b = c +:+ String sep d ->
  a = c /\ b = d.
Proof.
  intros Hsep. revert c. induction a as [|x a IH]; intros [|y c] Ha Hc Heq.
  - rewrite !append_nil_l in Heq. injection Heq as ->. auto.
  - rewrite append_nil_l, append_cons in Heq. injection Heq as <- _.
    cbn [numeral] in Hc. rewrite Hsep in Hc. discriminate.
  - rewrite append_nil_l, append_cons in Heq. injection Heq as -> _.
    cbn [numeral] in Ha. rewrite Hsep in Ha. discriminate.
  - rewrite !append_cons in Heq. injection Heq as -> Heq.
    cbn [numeral] in Ha, Hc.
    apply andb_true_iff in Ha as [_ Ha]. apply andb_true_iff in Hc as [_ Hc].
    destruct (IH c Ha Hc Heq) as [-> ->]. auto.
Qed.

Lemma append_inj_length (a b c d : string) :
  String.length a = String.length b ->
  a +:+ c = b +:+ d -> a = b /\ c = d.
Proof.
  revert b. induction a as [|x a IH]; intros [|y b] Hlen Heq;
    try discriminate Hlen.
  - auto.
  - rewrite !append_cons in Heq. injection Heq as -> Heq.
    injection Hlen as Hlen. destruct (IH b Hlen Heq) as [-> ->]. auto.
Qed.

Lemma append_cancel_r (a b c : string) : a +:+ c = b +:+ c -> a = b.
Proof.
  intros Heq. apply (append_inj_length a b c c); [|exact Heq].
  apply (f_equal String.length) in Heq. rewrite !length_append in Heq. lia.
Qed.

Lemma Sprintf_ports (l r : Z) :
  Sprintf "%d:%d" [ArgInt l; ArgInt r] = fmt_d l +:+ String ":" (fmt_d r).
Proof. cbn [Sprintf]. rewrite append_empty_r. reflexivity. Qed.

Lemma URLFor_unfold (pf : PortForward) (path : string) :
  URLFor pf path = "http://127.0.0.1:" +:+ fmt_d (localPort pf) +:+ path.
Proof. unfold URLFor. cbn [Sprintf]. rewrite append_empty_r. reflexivity. Qed.

(** The ports mapping [Run] hands to the forwarder determines the pair of
    ports: sessions with the same mapping text have the same local port and
    the same remote port. *)
Theorem ports_mapping_injective (pf1 pf2 : PortForward) :
  fw_ports (forwarder_of pf1) = fw_ports (forwarder_of pf2) ->
  localPort pf1 = localPort pf2 /\ remotePort pf1 = remotePort pf2.
Proof.
  cbn [fw_ports forwarder_of]. rewrite !Sprintf_ports. intros Heq.
  injection Heq as Heq.
  apply numeral_split_unique in Heq as [Hl Hr];
    [| reflexivity | apply fmt_d_numeral | apply fmt_d_numeral].
  split; now apply fmt_d_inj.
Qed.

Lemma ports_mapping_injective_witness :
  localPort demo_session = 7777 /\ remotePort demo_session = 8080.
Proof.
  apply (ports_mapping_injective demo_session
           (mkPortForward "GET" (url demo_session) 7777 8080 true 5 6 (mkConfig ""))).
  reflexivity.
Defined.

(** [URLFor] keeps the local port readable: for one and the same path, and
    for any two paths that begin with a slash, equal URLs come from equal
    local ports (and, in the second case, equal paths). *)
Theorem URLFor_injective (pf1 pf2 : PortForward) :
  (forall path, URLFor pf1 path = URLFor pf2 path -> localPort pf1 = localPort pf2)
  /\ (forall rest1 rest2,
        URLFor pf1 (String "/" rest1) = URLFor pf2 (String "/" rest2) ->
        localPort pf1 = localPort pf2 /\ rest1 = rest2).
Proof.
  split.
  - intros path Heq. rewrite !URLFor_unfold in Heq.
    apply (append_inj_length "http://127.0.0.1:" "http://127.0.0.1:") in Heq
      as [_ Heq]; [|reflexivity].
    apply append_cancel_r in Heq. now apply fmt_d_inj.
  - intros rest1 rest2 Heq. rewrite !URLFor_unfold in Heq.
    apply (append_inj_length "http://127.0.0.1:" "http://127.0.0.1:") in Heq
      as [_ Heq]; [|reflexivity].
    apply numeral_split_unique in Heq as [Hport ->];
      [| reflexivity | apply fmt_d_numeral | apply fmt_d_numeral].
    split; [now apply fmt_d_inj | reflexivity].
Qed.

Lemma URLFor_injective_witness :
  localPort demo_session = 7777.
Proof.
  apply (proj1 (URLFor_injective demo_session
                  (mkPortForward "GET" (url demo_session) 7777 1 true 5 6 (mkConfig "")))
           "/ready").
  reflexivity.
Defined.

(** Without the slash the port and the path can run into each other. *)
Example URLFor_ambiguous :
  URLFor (with_emitLogs false (mkPortForward "POST" (url demo_session) 1 8080 false 0 1
                                 (config demo_session))) "2"
  = URLFor (mkPortForward "POST" (url demo_session) 12 8080 false 0 1
              (config demo_session)) "".
Proof. reflexivity. Qed.

(** ** A run that succeeds *)

Lemma bind_all_single_ok (e : Env) (p : string) :
  bind_local e p = None -> bind_all e [p] = None.
Proof.
  intros Hp. unfold bind_all. now rewrite filter_cons_True by assumption.
Qed.

Lemma close_frame_world (c : nat) (w : World) (ch : Chan) :
  chans w !! c = Some ch ->
  ch_closed ch = false ->
  exists w',
    close c w = Returned tt w'
    /\ chans w' !! c = Some (mkChan (ch_cap ch) true)
    /\ (forall c', c' <> c -> chans w' !! c' = chans w !! c')
    /\ open_listeners w' = open_listeners w
    /\ listen_calls w' = listen_calls w
    /\ env w' = env w.
Proof.
  intros Hch Hopen. rewrite (close_open _ _ _ Hch Hopen).
  eexists. split; [reflexivity|]. cbn [chans set_chans]. split; [|split].
  - apply lookup_insert_eq.
  - intros c' Hc. now rewrite lookup_insert_ne by congruence.
  - repeat split.
Qed.

Lemma write_to_frame (wr : Writer) (lines : list string) (w : World) :
  exists w',
    write_to wr lines w = Returned tt w'
    /\ chans w' = chans w /\ open_listeners w' = open_listeners w
    /\ listen_calls w' = listen_calls w /\ env w' = env w.
Proof. destruct wr; eexists; repeat split. Qed.

(** When the round tripper is built, the forwarder is set up, the upgrade
    is accepted and the local port is bound, [Run] on a session whose ready
    channel is open returns what the tunnel ended with, and the channel
    [Ready] returns has fired. No other channel has changed, the stop
    channel in particular, and no listener of the allocator is involved. *)
Theorem Run_signals_ready (pf : PortForward) (w : World) (ch : Chan) :
  let ports := Sprintf "%d:%d" [ArgInt (localPort pf); ArgInt (remotePort pf)] in
  round_tripper_for (env w) (config pf) = None ->
  forwarder_new (env w) [ports] = None ->
  upgrade (env w) (url pf) = None ->
  bind_local (env w) ports = None ->
  chans w !! readyCh pf = Some ch ->
  ch_closed ch = false ->
  exists w',
    Run pf w = Returned (tunnel_end (env w)) w'
    /\ fired (Ready pf) w' = true
    /\ (forall c, c <> readyCh pf -> chans w' !! c = chans w !! c)
    /\ open_listeners w' = open_listeners w
    /\ listen_calls w' = listen_calls w.
Proof.
  intros ports Hrt Hnew Hup Hbind Hch Hopen.
  rewrite Run_unfold. cbn [fw_ports forwarder_of]. fold ports.
  rewrite Hrt, Hnew, ForwardPorts_unfold.
  cbn [fw_dialer fw_ports fw_Ready fw_out fw_errOut d_url forwarder_of]. fold ports.
  rewrite Hup, (bind_all_single_ok _ _ Hbind).
  destruct (close_frame_world (readyCh pf) w ch Hch Hopen)
    as (w1 & -> & Hclosed & Hother & Hl1 & Hc1 & He1).
  destruct (write_to_frame (if emitLogs pf then Stdout else Discard)
              (loop_out (env w)) w1) as (w2 & -> & Hch2 & Hl2 & Hc2 & _).
  destruct (write_to_frame (if emitLogs pf then Stderr else Discard)
              (loop_errOut (env w)) w2) as (w3 & -> & Hch3 & Hl3 & Hc3 & _).
  exists w3. split; [reflexivity|]. split; [|split; [|split; congruence]].
  - unfold fired, Ready. replace (chans w3) with (chans w1) by congruence.
    now rewrite Hclosed.
  - intros c Hc. replace (chans w3) with (chans w1) by congruence.
    now apply Hother.
Qed.

Lemma Run_signals_ready_witness :
  exists w',
    Run demo_session demo_session_world = Returned None w'
    /\ fired (Ready demo_session) w' = true
    /\ fired (stopCh demo_session) w' = false.
Proof.
  destruct (Run_signals_ready demo_session demo_session_world (mkChan 0 false)
              eq_refl eq_refl eq_refl eq_refl eq_refl eq_refl)
    as (w' & Hrun & Hready & Hother & _).
  exists w'. repeat split; [exact Hrun | exact Hready |].
  unfold fired. rewrite Hother by discriminate. reflexivity.
Defined.

(** A session is good for one run: under the same conditions, a second
    [Run] on the session finds the ready channel closed and panics with
    "close of closed channel". *)
Theorem Run_twice_panics (pf : PortForward) (w : World) (ch : Chan) :
  let ports := Sprintf "%d:%d" [ArgInt (localPort pf); ArgInt (remotePort pf)] in
  round_tripper_for (env w) (config pf) = None ->
  forwarder_new (env w) [ports] = None ->
  upgrade (env w) (url pf) = None ->
  bind_local (env w) ports = None ->
  chans w !! readyCh pf = Some ch ->
  ch_closed ch = false ->
  exists w', (_ ← Run pf; Run pf) w = Panicked "close of closed channel" w'.
Proof.
  intros ports Hrt Hnew Hup Hbind Hch Hopen.
  unfold mbind, M_bind, bind.
  rewrite (Run_unfold pf w). cbn [fw_ports forwarder_of]. fold ports.
  rewrite Hrt, Hnew, ForwardPorts_unfold.
  cbn [fw_dialer fw_ports fw_Ready fw_out fw_errOut d_url forwarder_of]. fold ports.
  rewrite Hup, (bind_all_single_ok _ _ Hbind).
  destruct (close_frame_world (readyCh pf) w ch Hch Hopen)
    as (w1 & -> & Hclosed & _ & _ & _ & He1).
  destruct (write_to_frame (if emitLogs pf then Stdout else Discard)
              (loop_out (env w)) w1) as (w2 & -> & Hch2 & _ & _ & He2).
  destruct (write_to_frame (if emitLogs pf then Stderr else Discard)
              (loop_errOut (env w)) w2) as (w3 & -> & Hch3 & _ & _ & He3).
  assert (env w3 = env w) as He by congruence.
  rewrite (Run_unfold pf w3). cbn [fw_ports forwarder_of]. fold ports.
  rewrite He, Hrt, Hnew, ForwardPorts_unfold.
  cbn [fw_dialer fw_ports fw_Ready d_url forwarder_of]. fold ports.
  rewrite He, Hup, (bind_all_single_ok _ _ Hbind).
  assert (fired (readyCh pf) w3 = true) as Hfired.
  { unfold fired. replace (chans w3) with (chans w1) by congruence.
    now rewrite Hclosed. }
  rewrite (close_fired _ _ Hfired). now exists w3.
Qed.

Lemma Run_twice_panics_witness :
  exists w',
    (_ ← Run demo_session; Run demo_session) demo_session_world
    = Panicked "close of closed channel" w'.
Proof.
  apply (Run_twice_panics demo_session demo_session_world (mkChan 0 false));
    reflexivity.
Defined.
